(** * assistantAI: agent registry, instruction templates and capability functions

    A shallow embedding of the Python sources [agents.py], [gmail.py],
    [google_calendar.py], [x.py], [spotify.py] and [common.py].

    - The context dictionary is a finite map from strings to strings.
    - Agent objects live in a heap and the module's global names point
      into it, so that the module-level mutations of [agents.py]
      ([base_agent.functions = ...], [....functions.append(...)]) and the
      late-bound global reads of the transfer functions are kept.
    - Capability functions run in a state-and-exception monad: the state is
      the trace of calls made to the outside world (Google, X and Spotify
      clients, the file system, the console), an oracle answers each call
      with a value or an exception, and [try ... except] is a handler.
    - Strings are byte strings. The [logging] calls are left out: they
      change nothing the functions return or raise. *)

From Stdlib Require Import ZArith Ascii String.
From stdpp Require Import base option list strings pretty gmap.

(** ** Strings *)

Definition nl : string := String "010"%char EmptyString.

Fixpoint join (sep : string) (l : list string) : string :=
  match l with
  | [] => ""
  | [x] => x
  | x :: rest => x +:+ sep +:+ join sep rest
  end.

(** ** The context dictionary and the instruction templates of agents.py *)

Abbreviation Context := (gmap string string).

(** [d.get(key, default)] *)
Definition dict_get (d : Context) (key fallback : string) : string :=
  default fallback (d !! key).

Module Instructions.

(** Every template takes the reading of [datetime.now().isoformat()] at the
    time of the call as [now]: Python evaluates the default argument of
    [.get] before the lookup. *)

Definition base_assistant_instructions (now : string) (context_variables : Context) : string :=
  let user_name := dict_get context_variables "user_name" "User" in
  let preferred_language := dict_get context_variables "preferred_language" "English" in
  let location := dict_get context_variables "location" "N/A" in
  let current_datetime := dict_get context_variables "current_datetime" now in
  "
    You are a personal assistant for " +:+ user_name +:+ ". You coordinate between specialized agents for email, calendar, and social media tasks.
    Use the following user information to personalize your responses:
    - User Name: " +:+ user_name +:+ "
    - Preferred Language: " +:+ preferred_language +:+ "
    - Location: " +:+ location +:+ "
    - Current Date/Time: " +:+ current_datetime +:+ "

    Always address the user by their name and consider their location and preferred language when responding.
    Direct specific tasks to the appropriate specialized agent.
    ".

Definition email_assistant_instructions (now : string) (context_variables : Context) : string :=
  "
    You are an email management specialist for " +:+ dict_get context_variables "user_name" "User" +:+ ".
    User Email: " +:+ dict_get context_variables "email" "N/A" +:+ "
    Preferred Language: " +:+ dict_get context_variables "preferred_language" "English" +:+ "
    
    You can:
    - Read and search emails
    - Get detailed information about specific emails
    - Write and send emails
    
    You cannot:
    - Delete emails
    - Manage calendar events
    
    Rules:
    - Before sending an email, confirm with User the email content and recipients.
    - IMPORTANT: Do not send an email without User's approval.
    - Always use get_email_by_id function with the appropriate email ID for detailed email content queries.
    - When reading an email, provide a summary of the email content.
    ".

Definition calendar_assistant_instructions (now : string) (context_variables : Context) : string :=
  "
    You are a calendar management specialist for " +:+ dict_get context_variables "user_name" "User" +:+ ".
    Current Datetime: " +:+ dict_get context_variables "current_datetime" now +:+ "
    User Preferred Language: " +:+ dict_get context_variables "preferred_language" "English" +:+ "
    User Location: " +:+ dict_get context_variables "location" "N/A" +:+ "
    
    You can:
    - List upcoming events
    - Create new calendar events
    - Update existing events
    - Delete events
    
    Rules:
    - Always confirm event details with User before creating, updating, or deleting events.
    
    Important: Always handle dates and times in ISO format and consider the user's timezone.
    ".

Definition social_media_assistant_instructions (now : string) (context_variables : Context) : string :=
  "
    You are a social media specialist for " +:+ dict_get context_variables "user_name" "User" +:+ ".
    Twitter Username: " +:+ dict_get context_variables "twitter_username" "N/A" +:+ "
    User Language: " +:+ dict_get context_variables "tweet_preferred_language" "Polish" +:+ "
    
    You can:
    - Send tweets on User's Twitter account with engaging content.
    
    Rules:
    - Always confirm the tweet content with User before posting.
    - IMPORTANT: Do not post before User's approval.
    - Tweet content should be engaging.
    - Use the tweet_preferred_language to determine the language of the tweet.
    ".

Definition music_assistant_instructions (now : string) (context_variables : Context) : string :=
  "
    You are a music assistant for " +:+ dict_get context_variables "user_name" "User" +:+ ".
    Preferred Language: " +:+ dict_get context_variables "preferred_language" "English" +:+ "
    
    You can:
    - Search for content on Spotify (tracks, albums, artists, playlists)
    - Play content by URI
    - Control playback (play, pause, next, previous)
    - Get information about currently playing track

    Rules:
    - When just searching, provide to User the most important information about the content
    - Provide content information when starting playback
    - Always handle errors gracefully and inform the user if there are any playback issues
    - Note that only tracks, albums, artists, and playlists can be played directly
    - For shows, episodes, and audiobooks, you can only search and provide information
    ".

(** The second arguments of the [.get] calls above, key by key. *)
Definition fallbacks (now : string) : Context :=
  <["user_name" := "User"]> (<["email" := "N/A"]> (<["preferred_language" := "English"]>
    (<["location" := "N/A"]> (<["twitter_username" := "N/A"]>
      (<["tweet_preferred_language" := "Polish"]> (<["current_datetime" := now]> ∅)))))).

End Instructions.

(** ** The agent registry of agents.py *)

Module Registry.
Import Instructions.

(** The function objects that appear in [Agent.functions]. *)
Inductive func :=
  | fn_read_emails | fn_get_email_by_id | fn_search_for_emails | fn_write_email
  | fn_list_upcoming_events | fn_create_event | fn_delete_event | fn_update_event
  | fn_send_tweet
  | fn_play | fn_search | fn_get_current_track | fn_control_playback
  | fn_transfer_to_email_agent | fn_transfer_to_calendar_agent
  | fn_transfer_to_social_media_agent | fn_transfer_to_music_agent
  | fn_transfer_back_to_base_agent.

#[global] Instance func_eq_dec : EqDecision func.
Proof. solve_decision. Defined.

(** [f.__name__] *)
Definition func_name (f : func) : string :=
  match f with
  | fn_read_emails => "read_emails"
  | fn_get_email_by_id => "get_email_by_id"
  | fn_search_for_emails => "search_for_emails"
  | fn_write_email => "write_email"
  | fn_list_upcoming_events => "list_upcoming_events"
  | fn_create_event => "create_event"
  | fn_delete_event => "delete_event"
  | fn_update_event => "update_event"
  | fn_send_tweet => "send_tweet"
  | fn_play => "play"
  | fn_search => "search"
  | fn_get_current_track => "get_current_track"
  | fn_control_playback => "control_playback"
  | fn_transfer_to_email_agent => "transfer_to_email_agent"
  | fn_transfer_to_calendar_agent => "transfer_to_calendar_agent"
  | fn_transfer_to_social_media_agent => "transfer_to_social_media_agent"
  | fn_transfer_to_music_agent => "transfer_to_music_agent"
  | fn_transfer_back_to_base_agent => "transfer_back_to_base_agent"
  end.

(** [swarm.Agent]: the fields agents.py sets. *)
Record Agent := mkAgent {
  name : string;
  instructions : string -> Context -> string;
  model : string;
  functions : list func
}.

(** Agents are objects: [heap] holds them by address and [globals] binds the
    module's names to addresses. *)
Record pystate := mkState {
  heap : list Agent;
  globals : gmap string nat
}.

Definition initial : pystate := mkState [] ∅.

(** [var = Agent(...)]: a fresh object, and the name is (re)bound to it. *)
Definition new_agent (var : string) (a : Agent) (s : pystate) : pystate :=
  mkState (heap s ++ [a]) (<[var := length (heap s)]> (globals s)).

(** Reading a global name; [None] stands for Python's NameError. *)
Definition load_global (var : string) (s : pystate) : option nat :=
  globals s !! var.

Definition deref (l : nat) (s : pystate) : option Agent := heap s !! l.

Definition agent_of (var : string) (s : pystate) : option Agent :=
  l ← load_global var s; deref l s.

Definition with_functions (fs : list func) (a : Agent) : Agent :=
  mkAgent (name a) (instructions a) (model a) fs.

(** [var.functions = fs] *)
Definition set_functions (var : string) (fs : list func) (s : pystate) : option pystate :=
  l ← load_global var s;
  a ← deref l s;
  Some (mkState (<[l := with_functions fs a]> (heap s)) (globals s)).

(** [var.functions.append(f)]: Python's list.append, no membership test. *)
Definition functions_append (var : string) (f : func) (s : pystate) : option pystate :=
  l ← load_global var s;
  a ← deref l s;
  Some (mkState (<[l := with_functions (functions a ++ [f]) a]> (heap s)) (globals s)).

(** The transfer functions: no parameter, the body is [return <global>].
    They are given the interpreter state and hand it back next to the
    address they return. *)
Definition transfer_to_email_agent (s : pystate) : option nat * pystate :=
  (load_global "email_agent" s, s).

Definition transfer_to_calendar_agent (s : pystate) : option nat * pystate :=
  (load_global "calendar_agent" s, s).

Definition transfer_to_social_media_agent (s : pystate) : option nat * pystate :=
  (load_global "social_media_agent" s, s).

Definition transfer_to_music_agent (s : pystate) : option nat * pystate :=
  (load_global "music_agent" s, s).

Definition transfer_back_to_base_agent (s : pystate) : option nat * pystate :=
  (load_global "base_agent" s, s).

(** The body behind a function object, for the transfer functions. *)
Definition transfer_body (f : func) : option (pystate -> option nat * pystate) :=
  match f with
  | fn_transfer_to_email_agent => Some transfer_to_email_agent
  | fn_transfer_to_calendar_agent => Some transfer_to_calendar_agent
  | fn_transfer_to_social_media_agent => Some transfer_to_social_media_agent
  | fn_transfer_to_music_agent => Some transfer_to_music_agent
  | fn_transfer_back_to_base_agent => Some transfer_back_to_base_agent
  | _ => None
  end.

Definition is_transfer (f : func) : bool := bool_decide (is_Some (transfer_body f)).

(** The agent a function object returns when it is called in [s]. *)
Definition transfer_result (f : func) (s : pystate) : option nat :=
  body ← transfer_body f; fst (body s).

Section Module_body.

(** [os.getenv(key)] *)
Variable getenv : string -> option string.

Definition default_model : string := default "gpt-4o-mini" (getenv "default_model").

(** The agent-building statements of agents.py, in source order. *)
Definition build_agents (s : pystate) : pystate :=
  let s := new_agent "base_agent"
             (mkAgent "Base Assistant" base_assistant_instructions default_model []) s in
  let s := new_agent "email_agent"
             (mkAgent "Email Assistant" email_assistant_instructions default_model
                [fn_read_emails; fn_get_email_by_id; fn_search_for_emails; fn_write_email]) s in
  let s := new_agent "calendar_agent"
             (mkAgent "Calendar Assistant" calendar_assistant_instructions default_model
                [fn_list_upcoming_events; fn_create_event; fn_delete_event; fn_update_event]) s in
  let s := new_agent "social_media_agent"
             (mkAgent "Social Media Assistant" social_media_assistant_instructions default_model
                [fn_send_tweet]) s in
  new_agent "music_agent"
    (mkAgent "Music Assistant" music_assistant_instructions default_model
       [fn_play; fn_search; fn_get_current_track; fn_control_playback]) s.

(** The four [....functions.append(transfer_back_to_base_agent)] statements. *)
Definition append_transfer_back (s : pystate) : option pystate :=
  s ← functions_append "email_agent" fn_transfer_back_to_base_agent s;
  s ← functions_append "calendar_agent" fn_transfer_back_to_base_agent s;
  s ← functions_append "social_media_agent" fn_transfer_back_to_base_agent s;
  functions_append "music_agent" fn_transfer_back_to_base_agent s.

(** Executing the module body of agents.py. *)
Definition agents_module (s : pystate) : option pystate :=
  s ← set_functions "base_agent"
        [fn_transfer_to_email_agent; fn_transfer_to_calendar_agent;
         fn_transfer_to_social_media_agent; fn_transfer_to_music_agent]
        (build_agents s);
  append_transfer_back s.

(** The five agents the module body allocates, in allocation order, with the
    function lists they have once the body has run. *)
Definition built : list Agent :=
  [mkAgent "Base Assistant" base_assistant_instructions default_model
     [fn_transfer_to_email_agent; fn_transfer_to_calendar_agent;
      fn_transfer_to_social_media_agent; fn_transfer_to_music_agent];
   mkAgent "Email Assistant" email_assistant_instructions default_model
     [fn_read_emails; fn_get_email_by_id; fn_search_for_emails; fn_write_email;
      fn_transfer_back_to_base_agent];
   mkAgent "Calendar Assistant" calendar_assistant_instructions default_model
     [fn_list_upcoming_events; fn_create_event; fn_delete_event; fn_update_event;
      fn_transfer_back_to_base_agent];
   mkAgent "Social Media Assistant" social_media_assistant_instructions default_model
     [fn_send_tweet; fn_transfer_back_to_base_agent];
   mkAgent "Music Assistant" music_assistant_instructions default_model
     [fn_play; fn_search; fn_get_current_track; fn_control_playback;
      fn_transfer_back_to_base_agent]].

End Module_body.

(** The bindings the module body makes when the heap holds [n] objects. *)
Definition bound (n : nat) (g : gmap string nat) : gmap string nat :=
  <["music_agent" := n + 4]> (<["social_media_agent" := n + 3]>
    (<["calendar_agent" := n + 2]> (<["email_agent" := n + 1]> (<["base_agent" := n + 0]> g)))).

Definition specialists : list string :=
  ["email_agent"; "calendar_agent"; "social_media_agent"; "music_agent"].

Definition agent_names : list string := "base_agent" :: specialists.

End Registry.

(** ** Python values, exceptions and the outside world *)

Module Py.

Local Open Scope Z_scope.

(** JSON-like values, as the Google, X and Spotify clients return them, and
    objects with attributes (credentials, OAuth flows, client handles). *)
#[warnings="-register-all"]
Inductive pyval :=
  | PNone
  | PBool (b : bool)
  | PInt (n : Z)
  | PStr (s : string)
  | PList (l : list pyval)
  | PDict (d : list (string * pyval))
  | PObj (attrs : list (string * pyval)).

(** Exception classes; every one of them derives from [Exception]
    (KeyboardInterrupt and SystemExit are not exceptions of the model). A
    subclass of ValueError (binascii.Error, UnicodeDecodeError) is a
    [ValueError]. *)
Inductive exn_class :=
  | AttributeError | IndexError | KeyError | TypeError | ValueError
  | UnboundLocalError
  | OtherError (class_name : string).

(** An exception object; [exn_str e] is Python's [str(e)]. *)
Record exn := Exn { exn_type : exn_class; exn_str : string }.

Inductive res (A : Type) :=
  | Ok (a : A)
  | Raise (e : exn).
Arguments Ok {A} a.
Arguments Raise {A} e.

#[global] Instance res_ret : MRet res := fun A a => Ok a.
#[global] Instance res_bind : MBind res :=
  fun A B f r => match r with Ok a => f a | Raise e => Raise e end.

(** Operations of the outside world. *)
Inductive op :=
  (* common.py *)
  | os_path_exists | Credentials_from_authorized_user_file | os_remove
  | creds_refresh | InstalledAppFlow_from_client_secrets_file
  | flow_set_redirect_uri | flow_authorization_url | input | flow_fetch_token
  | creds_to_json | write_file | build
  (* gmail.py *)
  | messages_list | messages_get | messages_send
  (* google_calendar.py *)
  | datetime_utcnow_isoformat
  | events_list | events_insert | events_delete | events_get | events_update
  (* x.py *)
  | tweepy_Client | create_tweet
  (* spotify.py *)
  | SpotifyOAuth | get_cached_token | validate_token | get_authorize_url
  | get_access_token | Spotify
  | sp_search | start_playback | current_playback | pause_playback
  | next_track | previous_track.

#[global] Instance op_eq_dec : EqDecision op.
Proof. solve_decision. Defined.

(** A call: the operation and its arguments (the receiver first). *)
Definition call : Type := op * list pyval.

(** What the code runs on: the environment, the services behind the client
    libraries, and the library functions taken as given. *)
Record platform := mkPlatform {
  (** [os.getenv(key)] *)
  getenv : string -> option string;
  (** the answer to a call, given the calls made before it *)
  respond : list call -> call -> res pyval;
  (** the text of an error the interpreter raises *)
  errmsg : exn_class -> list pyval -> string;
  (** [str(v)] of a list, a dict or an object *)
  repr : pyval -> string;
  os_path_dirname : string -> string;
  os_path_join : string -> string -> string;
  (** [base64.urlsafe_b64decode(data).decode()] *)
  urlsafe_b64decode_decode : string -> res string;
  (** [base64.urlsafe_b64encode(m.as_bytes()).decode()] for the MIMEText [m]
      with the given body, to, from and subject *)
  mime_raw_message : string -> string -> string -> string -> res string;
  (** [datetime.fromisoformat(t).astimezone(timezone.utc).strftime('%Y-%m-%dT%H:%M:%SZ')] *)
  fromisoformat_utc : string -> res string;
  (** the order in which a set of strings is iterated *)
  set_iteration : list string -> list string
}.

(** The state a capability function runs in: the calls made so far and the
    [lru_cache] slot of [get_spotify_client]. *)
Record world := mkWorld {
  calls : list call;
  spotify_client_cache : option pyval
}.

Definition fresh : world := mkWorld [] None.

Definition M (A : Type) : Type := world -> res A * world.

#[global] Instance M_ret : MRet M := fun A a w => (Ok a, w).
#[global] Instance M_bind : MBind M :=
  fun A B f m w => match m w with
                   | (Ok a, w') => f a w'
                   | (Raise e, w') => (Raise e, w')
                   end.

Definition raise {A} (e : exn) : M A := fun w => (Raise e, w).

Definition lift {A} (r : res A) : M A := fun w => (r, w).

(** [try: m  except Exception as e: h e] *)
Definition try_except {A} (m : M A) (h : exn -> M A) : M A :=
  fun w => match m w with
           | (Ok a, w') => (Ok a, w')
           | (Raise e, w') => h e w'
           end.

(** [try: m  except ValueError as e: h e] *)
Definition try_except_ValueError {A} (m : M A) (h : exn -> M A) : M A :=
  fun w => match m w with
           | (Raise (Exn ValueError msg), w') => h (Exn ValueError msg) w'
           | r => r
           end.

(** [for x in l: f x], collecting the results *)
Fixpoint for_each {A B} (f : A -> M B) (l : list A) : M (list B) :=
  match l with
  | [] => mret []
  | x :: rest => y ← f x; ys ← for_each f rest; mret (y :: ys)
  end.

(** Every call [m] makes satisfies [Q]. *)
Definition makes_only {A} (Q : call -> Prop) (m : M A) : Prop :=
  ∀ w r w', m w = (r, w') -> ∃ new, calls w' = calls w ++ new ∧ Forall Q new.

Section Platform.
Context (P : platform).

Definition perform (o : op) (args : list pyval) : M pyval :=
  fun w => (respond P (calls w) (o, args),
            mkWorld (calls w ++ [(o, args)]) (spotify_client_cache w)).

Definition error {A} (c : exn_class) (args : list pyval) : res A :=
  Raise (Exn c (errmsg P c args)).

(** *** Operators and methods on values *)

Definition truthy (v : pyval) : bool :=
  match v with
  | PNone => false
  | PBool b => b
  | PInt n => negb (n =? 0)
  | PStr s => negb (bool_decide (s = ""))
  | PList l => negb (bool_decide (length l = 0%nat))
  | PDict d => negb (bool_decide (length d = 0%nat))
  | PObj _ => true
  end.

Fixpoint assoc (key : string) (d : list (string * pyval)) : option pyval :=
  match d with
  | [] => None
  | (k, v) :: rest => if bool_decide (k = key) then Some v else assoc key rest
  end.

Definition chars (s : string) : list pyval :=
  (fun c => PStr (String c EmptyString)) <$> list_ascii_of_string s.

(** [seq[i]] on a sequence of length [length l], negative indices included. *)
Definition seq_index {A} (l : list A) (i : Z) : option A :=
  let n := Z.of_nat (length l) in
  if bool_decide (0 <= i < n) then l !! Z.to_nat i
  else if bool_decide (- n <= i < 0) then l !! Z.to_nat (n + i)
  else None.

(** [v[k]] *)
Definition subscript (v k : pyval) : res pyval :=
  match v, k with
  | PDict d, PStr key =>
      match assoc key d with
      | Some x => Ok x
      | None => Raise (Exn KeyError ("'" +:+ key +:+ "'"))
      end
  | PDict d, _ => error KeyError [v; k]
  | PList l, PInt i =>
      match seq_index l i with
      | Some x => Ok x
      | None => error IndexError [v; k]
      end
  | PStr s, PInt i =>
      match seq_index (chars s) i with
      | Some x => Ok x
      | None => error IndexError [v; k]
      end
  | _, _ => error TypeError [v; k]
  end.

(** [v.name] *)
Definition getattr (v : pyval) (name : string) : res pyval :=
  match v with
  | PObj attrs =>
      match assoc name attrs with
      | Some x => Ok x
      | None => error AttributeError [v; PStr name]
      end
  | _ => error AttributeError [v; PStr name]
  end.

(** [v.get(key, fallback)] *)
Definition get (v : pyval) (key : string) (fallback : pyval) : res pyval :=
  match v with
  | PDict d => Ok (default fallback (assoc key d))
  | _ => error AttributeError [v; PStr "get"]
  end.

(** [for x in v] *)
Definition iter (v : pyval) : res (list pyval) :=
  match v with
  | PList l => Ok l
  | PDict d => Ok ((fun kv => PStr (fst kv)) <$> d)
  | PStr s => Ok (chars s)
  | _ => error TypeError [v]
  end.

Fixpoint is_prefix (p s : string) : bool :=
  match p, s with
  | EmptyString, _ => true
  | String a p', String b s' => bool_decide (a = b) && is_prefix p' s'
  | String _ _, EmptyString => false
  end.

(** [needle in s] on strings *)
Fixpoint contains (needle s : string) : bool :=
  is_prefix needle s ||
  match s with
  | EmptyString => false
  | String _ s' => contains needle s'
  end.

(** [key in v], for a string [key] *)
Definition str_in (key : string) (v : pyval) : res bool :=
  match v with
  | PDict d => Ok (bool_decide (is_Some (assoc key d)))
  | PList l => Ok (existsb (fun x => match x with
                                     | PStr s => bool_decide (s = key)
                                     | _ => false
                                     end) l)
  | PStr s => Ok (contains key s)
  | _ => error TypeError [PStr key; v]
  end.

(** [v == s], for a string [s] *)
Definition eq_str (v : pyval) (s : string) : bool :=
  match v with
  | PStr t => bool_decide (t = s)
  | _ => false
  end.

Definition lower_ascii (c : ascii) : ascii :=
  let n := nat_of_ascii c in
  if bool_decide (65 <= n <= 90)%nat then ascii_of_nat (n + 32) else c.

Fixpoint lower (s : string) : string :=
  match s with
  | EmptyString => EmptyString
  | String c s' => String (lower_ascii c) (lower s')
  end.

(** [v.lower()] *)
Definition method_lower (v : pyval) : res string :=
  match v with
  | PStr s => Ok (lower s)
  | _ => error AttributeError [v; PStr "lower"]
  end.

(** [s.replace(old, new)] for a one-character [old]. *)
Fixpoint replace (old : ascii) (new : string) (s : string) : string :=
  match s with
  | EmptyString => EmptyString
  | String c s' =>
      if bool_decide (c = old) then new +:+ replace old new s'
      else String c (replace old new s')
  end.

(** [s.replace('&', '&amp;').replace('<', '&lt;').replace('>', '&gt;')] *)
Definition escape (s : string) : string :=
  replace ">" "&gt;" (replace "<" "&lt;" (replace "&" "&amp;" s)).

(** [v.replace('&', ...)...] on a value: only a str has the method. *)
Definition method_escape (v : pyval) : res string :=
  match v with
  | PStr s => Ok (escape s)
  | _ => error AttributeError [v; PStr "replace"]
  end.

(** [s.split(',')] *)
Fixpoint split_go (sep : ascii) (cur : string) (s : string) : list string :=
  match s with
  | EmptyString => [String.rev cur]
  | String c s' =>
      if bool_decide (c = sep) then String.rev cur :: split_go sep "" s'
      else split_go sep (String c cur) s'
  end.

Definition split (sep : ascii) (s : string) : list string := split_go sep "" s.

(** [f"{v}"] *)
Definition fmt (v : pyval) : string :=
  match v with
  | PNone => "None"
  | PBool true => "True"
  | PBool false => "False"
  | PInt n => pretty n
  | PStr s => s
  | _ => repr P v
  end.

Definition opt_str (o : option string) : pyval :=
  match o with
  | Some s => PStr s
  | None => PNone
  end.

(** [sep.join(l)] on values: every item has to be a str *)
Fixpoint join_values (l : list pyval) : res (list string) :=
  match l with
  | [] => Ok []
  | PStr s :: rest => ss ← join_values rest; Ok (s :: ss)
  | v :: _ => error TypeError [v]
  end.

(** [d[key] = x] *)
Fixpoint assoc_set (key : string) (x : pyval) (d : list (string * pyval)) : list (string * pyval) :=
  match d with
  | [] => [(key, x)]
  | (k, v) :: rest =>
      if bool_decide (k = key) then (k, x) :: rest else (k, v) :: assoc_set key x rest
  end.

Definition setitem (v : pyval) (key : string) (x : pyval) : res pyval :=
  match v with
  | PDict d => Ok (PDict (assoc_set key x d))
  | _ => error TypeError [v; PStr key]
  end.

(** [a, b = v] *)
Definition unpack2 (v : pyval) : res (pyval * pyval) :=
  match v with
  | PList [a; b] => Ok (a, b)
  | PList _ => error ValueError [v]
  | _ => error TypeError [v]
  end.

End Platform.

End Py.

(** ** common.py *)

Module Common.
Import Py.

Section Platform.
Context (P : platform).

Definition SCOPES : pyval :=
  PList [PStr "https://www.googleapis.com/auth/gmail.modify";
         PStr "https://www.googleapis.com/auth/calendar";
         PStr "https://www.googleapis.com/auth/calendar.events"].

(** The [else] branch of authenticate_gmail: the manual OAuth flow. *)
Definition manual_authorization (credentials_path token_path : string) : M pyval :=
  flow ← perform P InstalledAppFlow_from_client_secrets_file [PStr credentials_path; SCOPES];
  _ ← perform P flow_set_redirect_uri [flow; PStr "urn:ietf:wg:oauth:2.0:oob"];
  url ← perform P flow_authorization_url [flow; PStr "offline"; PStr "true"];
  _ ← lift (unpack2 P url);
  auth_code ← perform P input [PStr "Enter the authorization code: "];
  _ ← perform P flow_fetch_token [flow; auth_code];
  creds ← lift (getattr P flow "credentials");
  json ← perform P creds_to_json [creds];
  _ ← perform P write_file [PStr token_path; json];
  mret creds.

Definition authenticate_gmail : M (pyval * pyval) :=
  let credentials_path := default "credentials.json" (getenv P "GMAIL_CREDENTIALS_PATH") in
  let token_path := os_path_join P (os_path_dirname P credentials_path) "token.json" in
  token_exists ← perform P os_path_exists [PStr token_path];
  creds ← (if truthy token_exists then
             try_except_ValueError
               (perform P Credentials_from_authorized_user_file [PStr token_path; SCOPES])
               (fun _ => _ ← perform P os_remove [PStr token_path]; mret PNone)
           else mret PNone);
  invalid ← (if negb (truthy creds) then mret true
             else valid ← lift (getattr P creds "valid"); mret (negb (truthy valid)));
  creds ← (if invalid : bool then
             refreshable ←
               (if truthy creds then
                  expired ← lift (getattr P creds "expired");
                  if truthy expired then
                    refresh_token ← lift (getattr P creds "refresh_token");
                    mret (truthy refresh_token)
                  else mret false
                else mret false);
             if refreshable : bool then
               _ ← perform P creds_refresh [creds]; mret creds
             else manual_authorization credentials_path token_path
           else mret creds);
  service_gmail ← perform P build [PStr "gmail"; PStr "v1"; creds];
  service_calendar ← perform P build [PStr "calendar"; PStr "v3"; creds];
  mret (service_gmail, service_calendar).

End Platform.
End Common.

(** ** gmail.py *)

Module Gmail.
Import Py Common.

(** A payload [<result><error>...</error></result>]. *)
Definition error_payload (text : string) : string :=
  "<result><error>" +:+ text +:+ "</error></result>".

Section Platform.
Context (P : platform).

(** [next((header['value'] for header in headers
           if header['name'].lower() == name), fallback)] *)
Fixpoint first_header (name : string) (fallback : pyval) (headers : list pyval) : res pyval :=
  match headers with
  | [] => Ok fallback
  | header :: rest =>
      n ← subscript P header (PStr "name");
      l ← method_lower P n;
      if bool_decide (l = name) then subscript P header (PStr "value")
      else first_header name fallback rest
  end.

Definition header_value (name fallback : string) (headers : pyval) : res pyval :=
  hs ← iter P headers; first_header name (PStr fallback) hs.

(** The body of the [for message in messages] loop of read_emails and of
    search_for_emails (the two are the same text). *)
Definition email_entry (service message : pyval) : M string :=
  id ← lift (subscript P message (PStr "id"));
  msg ← perform P messages_get [service; PStr "me"; id];
  payload ← lift (subscript P msg (PStr "payload"));
  headers ← lift (subscript P payload (PStr "headers"));
  email_id ← lift (subscript P message (PStr "id"));
  subject ← lift (header_value "subject" "No subject" headers);
  sender ← lift (header_value "from" "Unknown sender" headers);
  snippet ← lift (get P msg "snippet" (PStr "No snippet available"));
  snippet ← lift (method_escape P snippet);
  mret ("<email><id>" +:+ fmt P email_id +:+ "</id><from>" +:+ fmt P sender
        +:+ "</from><subject>" +:+ fmt P subject +:+ "</subject><snippet>" +:+ snippet
        +:+ "</snippet></email>").

(** [text] is the entry the loop body makes of the message [msg], listed as
    [message]: id, sender and subject as they are, the snippet escaped. *)
Definition entry_of (message msg : pyval) (text : string) : Prop :=
  ∃ payload headers email_id subject sender snippet,
    subscript P msg (PStr "payload") = Ok payload ∧
    subscript P payload (PStr "headers") = Ok headers ∧
    subscript P message (PStr "id") = Ok email_id ∧
    header_value "subject" "No subject" headers = Ok subject ∧
    header_value "from" "Unknown sender" headers = Ok sender ∧
    get P msg "snippet" (PStr "No snippet available") = Ok (PStr snippet) ∧
    text = "<email><id>" +:+ fmt P email_id +:+ "</id><from>" +:+ fmt P sender
           +:+ "</from><subject>" +:+ fmt P subject +:+ "</subject><snippet>"
           +:+ escape snippet +:+ "</snippet></email>".

(** [text] is the entry of a message that [service] has answered for the
    listed [message]. *)
Definition retrieved_entry (service message : pyval) (text : string) : Prop :=
  ∃ history id msg,
    subscript P message (PStr "id") = Ok id ∧
    respond P history (messages_get, [service; PStr "me"; id]) = Ok msg ∧
    entry_of message msg text.

(** [items] are the messages [service] lists for [query]. *)
Definition listed (service : pyval) (query : string) (limit : Z) (items : list pyval) : Prop :=
  ∃ history results messages,
    respond P history (messages_list, [service; PStr "me"; PStr query; PInt limit]) = Ok results ∧
    get P results "messages" (PList []) = Ok messages ∧
    iter P messages = Ok items.

(** The [q] that read_emails asks for. *)
Definition read_query (unread : bool) (date_filter : option string) : string :=
  let query := if unread then "is:unread" else "" in
  match date_filter with
  | Some f => if bool_decide (f = "") then query else query +:+ " " +:+ f
  | None => query
  end.

(** The [try] block of read_emails. *)
Definition read_emails_try (service : pyval) (unread : bool) (number_of_emails : Z)
    (date_filter : option string) : M string :=
  let query := read_query unread date_filter in
  results ← perform P messages_list [service; PStr "me"; PStr query; PInt number_of_emails];
  messages ← lift (get P results "messages" (PList []));
  if negb (truthy messages) then
    mret ("<result><message>No " +:+ (if unread then "unread " else "")
          +:+ "emails found.</message></result>")
  else
    items ← lift (iter P messages);
    email_info ← for_each (email_entry service) items;
    mret ("<result>" +:+ nl +:+ join nl email_info +:+ nl +:+ "</result>").

Definition read_emails (context_variables : Context) (unread : bool)
    (number_of_emails : Z) (date_filter : option string) : M string :=
  '(service, _) ← authenticate_gmail P;
  try_except (read_emails_try service unread number_of_emails date_filter)
    (fun e => mret ("<result><error>Error reading emails: " +:+ exn_str e
                    +:+ "</error></result>")).

(** The [try] block of search_for_emails. *)
Definition search_for_emails_try (service : pyval) (query : string) (max_results : Z)
    (date_filter : option string) : M string :=
  results ← perform P messages_list [service; PStr "me"; PStr query; PInt max_results];
  messages ← lift (get P results "messages" (PList []));
  if negb (truthy messages) then
    mret ("<result><message>No emails found matching the query: '" +:+ query
          +:+ "'</message></result>")
  else
    items ← lift (iter P messages);
    email_info ← for_each (email_entry service) items;
    mret ("<result>" +:+ nl +:+ join "" email_info +:+ nl +:+ "</result>").

Definition search_for_emails (context_variables : Context) (query : string)
    (max_results : Z) (date_filter : option string) : M string :=
  '(service, _) ← authenticate_gmail P;
  try_except (search_for_emails_try service query max_results date_filter)
    (fun e => mret ("<result><error>Error searching emails: " +:+ exn_str e
                    +:+ "</error></result>")).

(** The [try] block of write_email. *)
Definition write_email_try (service : pyval) (user_email to subject body : string) : M string :=
  raw_message ← lift (mime_raw_message P body to user_email subject);
  message ← perform P messages_send [service; PStr "me"; PDict [("raw", PStr raw_message)]];
  id ← lift (subscript P message (PStr "id"));
  mret ("<result><message>Email sent successfully. Message ID: " +:+ fmt P id
        +:+ "</message></result>").

Definition write_email (context_variables : Context) (to subject body : string) : M string :=
  let user_name := dict_get context_variables "user_name" "User" in
  let user_email := dict_get context_variables "email" "unknown@example.com" in
  '(service, _) ← authenticate_gmail P;
  try_except (write_email_try service user_email to subject body)
    (fun e => mret ("<result><error>Error sending email: " +:+ exn_str e
                    +:+ "</error></result>")).

(** [base64.urlsafe_b64decode(v).decode()] *)
Definition decode_data (v : pyval) : res string :=
  match v with
  | PStr s => urlsafe_b64decode_decode P s
  | _ => error P TypeError [v]
  end.

(** The [for part in payload['parts']] loop of get_email_by_id: the decoded
    data of the first text/plain part that has some, if there is one. *)
Fixpoint first_plain_part (parts : list pyval) : res (option string) :=
  match parts with
  | [] => Ok None
  | part :: rest =>
      mime_type ← get P part "mimeType" PNone;
      if eq_str mime_type "text/plain" then
        part_body ← get P part "body" (PDict []);
        data ← get P part_body "data" PNone;
        if truthy data then
          b ← subscript P part (PStr "body");
          d ← subscript P b (PStr "data");
          text ← decode_data d;
          Ok (Some text)
        else first_plain_part rest
      else first_plain_part rest
  end.

(** [body] as get_email_by_id has it before escaping. *)
Definition message_body (payload : pyval) : res string :=
  has_parts ← str_in P "parts" payload;
  if has_parts : bool then
    parts ← subscript P payload (PStr "parts");
    items ← iter P parts;
    found ← first_plain_part items;
    Ok (default "No content" found)
  else
    payload_body ← get P payload "body" (PDict []);
    data ← get P payload_body "data" PNone;
    if truthy data then
      b ← subscript P payload (PStr "body");
      d ← subscript P b (PStr "data");
      decode_data d
    else Ok "No content".

(** The [try] block of get_email_by_id. *)
Definition get_email_by_id_try (service : pyval) (email_id : string) : M string :=
  msg ← perform P messages_get [service; PStr "me"; PStr email_id];
  payload ← lift (subscript P msg (PStr "payload"));
  headers ← lift (subscript P payload (PStr "headers"));
  subject ← lift (header_value "subject" "No subject" headers);
  sender ← lift (header_value "from" "Unknown sender" headers);
  date ← lift (header_value "date" "Unknown date" headers);
  body ← lift (message_body payload);
  let body := escape body in
  let email_info := "<email>
  <id>" +:+ email_id +:+ "</id>
  <from>" +:+ fmt P sender +:+ "</from>
  <subject>" +:+ fmt P subject +:+ "</subject>
  <date>" +:+ fmt P date +:+ "</date>
  <body>" +:+ body +:+ "</body>
</email>" in
  mret ("<result>" +:+ nl +:+ email_info +:+ nl +:+ "</result>").

Definition get_email_by_id (context_variables : Context) (email_id : string) : M string :=
  '(service, _) ← authenticate_gmail P;
  try_except (get_email_by_id_try service email_id)
    (fun e => mret ("<result><error>Error retrieving email with ID " +:+ email_id +:+ ": "
                    +:+ exn_str e +:+ "</error></result>")).

End Platform.
End Gmail.

(** ** google_calendar.py *)

Module Calendar.
Import Py Common.

Section Platform.
Context (P : platform).

(** [if s:] for an argument that is a str or None *)
Definition given (s : option string) : bool :=
  match s with
  | Some t => negb (bool_decide (t = ""))
  | None => false
  end.

(** [v + 'Z'] *)
Definition add_Z (v : pyval) : res string :=
  match v with
  | PStr s => Ok (s +:+ "Z")
  | _ => error P TypeError [v; PStr "Z"]
  end.

(** [[attendee['email'] for attendee in attendees if 'email' in attendee]] *)
Fixpoint attendee_emails (attendees : list pyval) : res (list pyval) :=
  match attendees with
  | [] => Ok []
  | attendee :: rest =>
      has_email ← str_in P "email" attendee;
      if has_email : bool then
        email ← subscript P attendee (PStr "email");
        emails ← attendee_emails rest;
        Ok (email :: emails)
      else attendee_emails rest
  end.

(** The body of the [for event in events] loop of list_upcoming_events. *)
Definition event_entry (event : pyval) : res string :=
  event_start ← subscript P event (PStr "start");
  start_date ← get P event_start "date" PNone;
  start ← get P event_start "dateTime" start_date;
  event_end ← subscript P event (PStr "end");
  end_date ← get P event_end "date" PNone;
  end_ ← get P event_end "dateTime" end_date;
  attendees ← get P event "attendees" (PList []);
  items ← iter P attendees;
  attendee_list ← attendee_emails items;
  id ← subscript P event (PStr "id");
  summary ← get P event "summary" (PStr "No title");
  location ← get P event "location" (PStr "No location");
  description ← get P event "description" (PStr "No description");
  emails ← join_values P attendee_list;
  Ok ("<event>
    <id>" +:+ fmt P id +:+ "</id>
    <summary>" +:+ fmt P summary +:+ "</summary>
    <start>" +:+ fmt P start +:+ "</start>
    <end>" +:+ fmt P end_ +:+ "</end>
    <location>" +:+ fmt P location +:+ "</location>
    <description>" +:+ fmt P description +:+ "</description>
    <attendees>" +:+ join ", " emails +:+ "</attendees>
</event>").

(** list_upcoming_events from the [events().list] call on. *)
Definition list_events (service : pyval) (max_results : Z) (time_min : string) : M string :=
  events_result ← perform P events_list
    [service; PStr "primary"; PStr time_min; PInt max_results; PBool true; PStr "startTime"];
  events ← lift (get P events_result "items" (PList []));
  if negb (truthy events) then
    mret "<result><message>No upcoming events found.</message></result>"
  else
    items ← lift (iter P events);
    event_info ← for_each (fun event => lift (event_entry event)) items;
    mret ("<result>" +:+ nl +:+ join "" event_info +:+ nl +:+ "</result>").

(** The [try] block of list_upcoming_events. *)
Definition list_upcoming_events_try (service : pyval) (max_results : Z)
    (time_min : option string) : M string :=
  if negb (given time_min) then
    now ← perform P datetime_utcnow_isoformat [];
    time_min ← lift (add_Z now);
    list_events service max_results time_min
  else
    match fromisoformat_utc P (default "" time_min) with
    | Ok time_min => list_events service max_results time_min
    | Raise (Exn ValueError msg) =>
        mret ("<result><error>Invalid time format: " +:+ msg +:+ "</error></result>")
    | Raise e => raise e
    end.

Definition list_upcoming_events (context_variables : Context) (max_results : Z)
    (time_min : option string) : M string :=
  '(_, service) ← authenticate_gmail P;
  try_except (list_upcoming_events_try service max_results time_min)
    (fun e => mret ("<result><error>Error listing events: " +:+ exn_str e
                    +:+ "</error></result>")).

(** [[{'email': email} for email in attendees.split(',')]] *)
Definition attendee_dicts (attendees : string) : pyval :=
  PList ((fun email => PDict [("email", PStr email)]) <$> split "," attendees).

(** The [try] block of create_event. *)
Definition create_event_try (service : pyval) (summary start_time end_time : string)
    (description location attendees : option string) : M string :=
  let event := [("summary", PStr summary);
                ("start", PDict [("dateTime", PStr start_time); ("timeZone", PStr "UTC")]);
                ("end", PDict [("dateTime", PStr end_time); ("timeZone", PStr "UTC")])] in
  let event := if given description
               then assoc_set "description" (PStr (default "" description)) event else event in
  let event := if given location
               then assoc_set "location" (PStr (default "" location)) event else event in
  let event := if given attendees
               then assoc_set "attendees" (attendee_dicts (default "" attendees)) event
               else event in
  event ← perform P events_insert [service; PStr "primary"; PDict event];
  id ← lift (subscript P event (PStr "id"));
  mret ("<result><message>Event created successfully. Event ID: " +:+ fmt P id
        +:+ "</message></result>").

Definition create_event (context_variables : Context) (summary start_time end_time : string)
    (description location attendees : option string) : M string :=
  '(_, service) ← authenticate_gmail P;
  try_except (create_event_try service summary start_time end_time description location attendees)
    (fun e => mret ("<result><error>Error creating event: " +:+ exn_str e
                    +:+ "</error></result>")).

(** The [try] block of delete_event. *)
Definition delete_event_try (service : pyval) (event_id : string) : M string :=
  _ ← perform P events_delete [service; PStr "primary"; PStr event_id];
  mret ("<result><message>Event " +:+ event_id +:+ " deleted successfully.</message></result>").

Definition delete_event (context_variables : Context) (event_id : string) : M string :=
  '(_, service) ← authenticate_gmail P;
  try_except (delete_event_try service event_id)
    (fun e => mret ("<result><error>Error deleting event: " +:+ exn_str e
                    +:+ "</error></result>")).

(** [event[outer]['dateTime'] = x] *)
Definition set_dateTime (event : pyval) (outer : string) (x : string) : res pyval :=
  inner ← subscript P event (PStr outer);
  inner ← setitem P inner "dateTime" (PStr x);
  setitem P event outer inner.

(** The [try] block of update_event. *)
Definition update_event_try (service : pyval) (event_id : string)
    (summary start_time end_time description location attendees : option string) : M string :=
  event ← perform P events_get [service; PStr "primary"; PStr event_id];
  event ← lift (if given summary
                then setitem P event "summary" (PStr (default "" summary)) else Ok event);
  event ← lift (if given start_time
                then set_dateTime event "start" (default "" start_time) else Ok event);
  event ← lift (if given end_time
                then set_dateTime event "end" (default "" end_time) else Ok event);
  event ← lift (if given description
                then setitem P event "description" (PStr (default "" description)) else Ok event);
  event ← lift (if given location
                then setitem P event "location" (PStr (default "" location)) else Ok event);
  event ← lift (if given attendees
                then setitem P event "attendees" (attendee_dicts (default "" attendees))
                else Ok event);
  _ ← perform P events_update [service; PStr "primary"; PStr event_id; event];
  mret ("<result><message>Event " +:+ event_id +:+ " updated successfully.</message></result>").

Definition update_event (context_variables : Context) (event_id : string)
    (summary start_time end_time description location attendees : option string) : M string :=
  '(_, service) ← authenticate_gmail P;
  try_except (update_event_try service event_id summary start_time end_time
                description location attendees)
    (fun e => mret ("<result><error>Error updating event: " +:+ exn_str e
                    +:+ "</error></result>")).

End Platform.
End Calendar.

(** ** x.py *)

Module X.
Import Py.

Section Platform.
Context (P : platform).

Definition authenticate_twitter : M pyval :=
  let bearer_token := getenv P "TWITTER_BEARER_TOKEN" in
  let consumer_key := getenv P "TWITTER_CONSUMER_KEY" in
  let consumer_secret := getenv P "TWITTER_CONSUMER_SECRET" in
  let access_token := getenv P "TWITTER_ACCESS_TOKEN" in
  let access_token_secret := getenv P "TWITTER_ACCESS_TOKEN_SECRET" in
  perform P tweepy_Client
    [opt_str bearer_token; opt_str consumer_key; opt_str consumer_secret;
     opt_str access_token; opt_str access_token_secret].

(** The [try] block of send_tweet. *)
Definition send_tweet_try (client : pyval) (tweet_content : string) : M string :=
  response ← perform P create_tweet [client; PStr tweet_content];
  data ← lift (getattr P response "data");
  id ← lift (subscript P data (PStr "id"));
  mret ("<result><message>Tweet sent successfully. Tweet ID: " +:+ fmt P id
        +:+ "</message></result>").

Definition send_tweet (context_variables : Context) (tweet_content : string) : M string :=
  client ← authenticate_twitter;
  try_except (send_tweet_try client tweet_content)
    (fun e => mret ("<result><error>Error sending tweet: " +:+ exn_str e
                    +:+ "</error></result>")).

End Platform.
End X.

(** ** spotify.py *)

Module Spotify.
Import Py.

Section Platform.
Context (P : platform).

Definition scope : string :=
  "user-read-playback-state user-modify-playback-state user-read-currently-playing playlist-read-private playlist-modify-public playlist-modify-private user-library-read user-library-modify".

(** The body of get_spotify_client, as it runs when the cache is empty. *)
Definition authenticate_spotify : M pyval :=
  try_except
    (let client_id := getenv P "SPOTIFY_CLIENT_ID" in
     let client_secret := getenv P "SPOTIFY_CLIENT_SECRET" in
     let redirect_uri := getenv P "SPOTIFY_REDIRECT_URI" in
     auth_manager ← perform P SpotifyOAuth
       [opt_str client_id; opt_str client_secret; opt_str redirect_uri; PStr scope; PBool false];
     token ← perform P get_cached_token [auth_manager];
     token_info ← perform P validate_token [auth_manager; token];
     _ ← (if negb (truthy token_info) then
            auth_url ← perform P get_authorize_url [auth_manager];
            auth_code ← perform P input [PStr "Enter the authorization code: "];
            perform P get_access_token [auth_manager; auth_code]
          else mret PNone);
     perform P Spotify [auth_manager])
    (fun e => raise e).

(** [@lru_cache(maxsize=1)]: the client of the first call that returned is
    kept; a call that raises leaves the cache as it was. *)
Definition get_spotify_client : M pyval :=
  fun w =>
    match spotify_client_cache w with
    | Some sp => (Ok sp, w)
    | None =>
        match authenticate_spotify w with
        | (Ok sp, w') => (Ok sp, mkWorld (calls w') (Some sp))
        | (Raise e, w') => (Raise e, w')
        end
    end.

Definition play_valid_types : list string := ["track"; "album"; "artist"; "playlist"].

(** [item['artists'][0]['name']] *)
Definition first_artist_name (item : pyval) : res pyval :=
  artists ← subscript P item (PStr "artists");
  artist ← subscript P artists (PInt 0);
  subscript P artist (PStr "name").

(** [item[outer][inner]] *)
Definition subscript2 (item : pyval) (outer inner : string) : res pyval :=
  v ← subscript P item (PStr outer);
  subscript P v (PStr inner).

(** The [try] block of play. *)
Definition play_try (sp : pyval) (query content_type : string) : M string :=
  if negb (bool_decide (content_type ∈ play_valid_types)) then
    mret ("<result><error>Invalid content type: '" +:+ content_type
          +:+ "'. Valid types are: " +:+ join ", " (set_iteration P play_valid_types)
          +:+ "</error></result>")
  else
    results ← perform P sp_search [sp; PStr query; PStr content_type; PInt 1];
    let items_key := content_type +:+ "s" in
    items ← lift (subscript2 results items_key "items");
    if negb (truthy items) then
      mret ("<result><error>No " +:+ content_type +:+ " found matching: '" +:+ query
            +:+ "'</error></result>")
    else
      items ← lift (subscript2 results items_key "items");
      item ← lift (subscript P items (PInt 0));
      if bool_decide (content_type = "track") then
        uri ← lift (subscript P item (PStr "uri"));
        _ ← perform P start_playback [sp; PDict [("uris", PList [uri])]];
        name ← lift (subscript P item (PStr "name"));
        artist ← lift (first_artist_name item);
        album ← lift (subscript2 item "album" "name");
        duration ← lift (subscript P item (PStr "duration_ms"));
        mret ("<result>
<message>Now playing track: " +:+ fmt P name +:+ " by " +:+ fmt P artist +:+ "</message>
<track_info>
    <name>" +:+ fmt P name +:+ "</name>
    <artist>" +:+ fmt P artist +:+ "</artist>
    <album>" +:+ fmt P album +:+ "</album>
    <duration>" +:+ fmt P duration +:+ "</duration>
</track_info>
</result>")
      else if bool_decide (content_type = "album") then
        uri ← lift (subscript P item (PStr "uri"));
        _ ← perform P start_playback [sp; PDict [("context_uri", uri)]];
        name ← lift (subscript P item (PStr "name"));
        artist ← lift (first_artist_name item);
        total_tracks ← lift (subscript P item (PStr "total_tracks"));
        mret ("<result>
<message>Now playing album: " +:+ fmt P name +:+ " by " +:+ fmt P artist +:+ "</message>
<album_info>
    <name>" +:+ fmt P name +:+ "</name>
    <artist>" +:+ fmt P artist +:+ "</artist>
    <total_tracks>" +:+ fmt P total_tracks +:+ "</total_tracks>
</album_info>
</result>")
      else if bool_decide (content_type = "artist") then
        uri ← lift (subscript P item (PStr "uri"));
        _ ← perform P start_playback [sp; PDict [("context_uri", uri)]];
        name ← lift (subscript P item (PStr "name"));
        popularity ← lift (subscript P item (PStr "popularity"));
        mret ("<result>
<message>Now playing top tracks from artist: " +:+ fmt P name +:+ "</message>
<artist_info>
    <name>" +:+ fmt P name +:+ "</name>
    <popularity>" +:+ fmt P popularity +:+ "</popularity>
</artist_info>
</result>")
      else if bool_decide (content_type = "playlist") then
        uri ← lift (subscript P item (PStr "uri"));
        _ ← perform P start_playback [sp; PDict [("context_uri", uri)]];
        name ← lift (subscript P item (PStr "name"));
        owner ← lift (subscript2 item "owner" "display_name");
        tracks_total ← lift (subscript2 item "tracks" "total");
        mret ("<result>
<message>Now playing playlist: " +:+ fmt P name +:+ "</message>
<playlist_info>
    <name>" +:+ fmt P name +:+ "</name>
    <owner>" +:+ fmt P owner +:+ "</owner>
    <tracks_total>" +:+ fmt P tracks_total +:+ "</tracks_total>
</playlist_info>
</result>")
      else
        (* no branch assigns [result] *)
        _ ← lift (subscript P item (PStr "name"));
        lift (error P UnboundLocalError [PStr "result"]).

Definition play (context_variables : Context) (query content_type : string) : M string :=
  sp ← get_spotify_client;
  try_except (play_try sp query content_type)
    (fun e => mret ("<result><error>Error playing " +:+ content_type +:+ ": " +:+ exn_str e
                    +:+ "</error></result>")).

(** The [try] block of get_current_track. *)
Definition get_current_track_try (sp : pyval) : M string :=
  current ← perform P current_playback [sp];
  nothing ← lift (if negb (truthy current) then Ok true
                  else item ← subscript P current (PStr "item"); Ok (negb (truthy item)));
  if nothing : bool then
    mret "<result><message>No track currently playing</message></result>"
  else
    track ← lift (subscript P current (PStr "item"));
    name ← lift (subscript P track (PStr "name"));
    artist ← lift (first_artist_name track);
    album ← lift (subscript2 track "album" "name");
    progress ← lift (subscript P current (PStr "progress_ms"));
    duration ← lift (subscript P track (PStr "duration_ms"));
    is_playing ← lift (subscript P current (PStr "is_playing"));
    mret ("<result>
<track_info>
    <name>" +:+ fmt P name +:+ "</name>
    <artist>" +:+ fmt P artist +:+ "</artist>
    <album>" +:+ fmt P album +:+ "</album>
    <progress>" +:+ fmt P progress +:+ "</progress>
    <duration>" +:+ fmt P duration +:+ "</duration>
    <is_playing>" +:+ fmt P is_playing +:+ "</is_playing>
</track_info>
</result>").

Definition get_current_track (context_variables : Context) : M string :=
  sp ← get_spotify_client;
  try_except (get_current_track_try sp)
    (fun e => mret ("<result><error>Error getting current track: " +:+ exn_str e
                    +:+ "</error></result>")).

(** The [try] block of control_playback. *)
Definition control_playback_try (sp : pyval) (action : string) : M string :=
  let done message := mret ("<result><message>" +:+ message +:+ "</message></result>") in
  if bool_decide (action = "play") then
    _ ← perform P start_playback [sp]; done "Playback started"
  else if bool_decide (action = "pause") then
    _ ← perform P pause_playback [sp]; done "Playback paused"
  else if bool_decide (action = "next") then
    _ ← perform P next_track [sp]; done "Skipped to next track"
  else if bool_decide (action = "previous") then
    _ ← perform P previous_track [sp]; done "Returned to previous track"
  else
    mret ("<result><error>Invalid action: " +:+ action +:+ "</error></result>").

Definition control_playback (context_variables : Context) (action : string) : M string :=
  sp ← get_spotify_client;
  try_except (control_playback_try sp action)
    (fun e => mret ("<result><error>Error controlling playback: " +:+ exn_str e
                    +:+ "</error></result>")).

Definition search_valid_types : list string :=
  ["album"; "artist"; "playlist"; "track"; "show"; "episode"; "audiobook"].

(** The body of the [for item in ...] loop of search. *)
Definition search_item_info (search_type : string) (item : pyval) : res string :=
  if bool_decide (search_type = "track") then
    name ← subscript P item (PStr "name");
    artist ← first_artist_name item;
    album ← subscript2 item "album" "name";
    duration ← subscript P item (PStr "duration_ms");
    uri ← subscript P item (PStr "uri");
    Ok ("<track>
    <name>" +:+ fmt P name +:+ "</name>
    <artist>" +:+ fmt P artist +:+ "</artist>
    <album>" +:+ fmt P album +:+ "</album>
    <duration>" +:+ fmt P duration +:+ "</duration>
    <uri>" +:+ fmt P uri +:+ "</uri>
</track>")
  else if bool_decide (search_type = "album") then
    name ← subscript P item (PStr "name");
    artist ← first_artist_name item;
    total_tracks ← subscript P item (PStr "total_tracks");
    uri ← subscript P item (PStr "uri");
    Ok ("<album>
    <name>" +:+ fmt P name +:+ "</name>
    <artist>" +:+ fmt P artist +:+ "</artist>
    <total_tracks>" +:+ fmt P total_tracks +:+ "</total_tracks>
    <uri>" +:+ fmt P uri +:+ "</uri>
</album>")
  else if bool_decide (search_type = "artist") then
    name ← subscript P item (PStr "name");
    popularity ← subscript P item (PStr "popularity");
    uri ← subscript P item (PStr "uri");
    Ok ("<artist>
    <name>" +:+ fmt P name +:+ "</name>
    <popularity>" +:+ fmt P popularity +:+ "</popularity>
    <uri>" +:+ fmt P uri +:+ "</uri>
</artist>")
  else if bool_decide (search_type = "playlist") then
    name ← subscript P item (PStr "name");
    owner ← subscript2 item "owner" "display_name";
    tracks_total ← subscript2 item "tracks" "total";
    uri ← subscript P item (PStr "uri");
    Ok ("<playlist>
    <name>" +:+ fmt P name +:+ "</name>
    <owner>" +:+ fmt P owner +:+ "</owner>
    <tracks_total>" +:+ fmt P tracks_total +:+ "</tracks_total>
    <uri>" +:+ fmt P uri +:+ "</uri>
</playlist>")
  else if bool_decide (search_type ∈ ["show"; "episode"; "audiobook"]) then
    name ← subscript P item (PStr "name");
    publisher ← subscript P item (PStr "publisher");
    uri ← subscript P item (PStr "uri");
    Ok ("<" +:+ search_type +:+ ">
    <name>" +:+ fmt P name +:+ "</name>
    <publisher>" +:+ fmt P publisher +:+ "</publisher>
    <uri>" +:+ fmt P uri +:+ "</uri>
</" +:+ search_type +:+ ">")
  else
    (* no branch assigns [item_info] *)
    error P UnboundLocalError [PStr "item_info"].

(** The [try] block of search. *)
Definition search_try (sp : pyval) (query search_type : string) (limit : Z) : M string :=
  if negb (bool_decide (search_type ∈ search_valid_types)) then
    mret ("<result><error>Invalid search type: '" +:+ search_type
          +:+ "'. Valid types are: " +:+ join ", " (set_iteration P search_valid_types)
          +:+ "</error></result>")
  else
    results ← perform P sp_search [sp; PStr query; PStr search_type; PInt limit];
    let items_key := search_type +:+ "s" in
    items ← lift (subscript2 results items_key "items");
    if negb (truthy items) then
      mret ("<result><message>No " +:+ search_type +:+ "s found matching: '" +:+ query
            +:+ "'</message></result>")
    else
      items ← lift (subscript2 results items_key "items");
      items ← lift (iter P items);
      items_info ← for_each (fun item => lift (search_item_info search_type item)) items;
      mret ("<result>" +:+ nl +:+ join "" items_info +:+ nl +:+ "</result>").

Definition search (context_variables : Context) (query search_type : string) (limit : Z)
    : M string :=
  sp ← get_spotify_client;
  try_except (search_try sp query search_type limit)
    (fun e => mret ("<result><error>Error searching " +:+ search_type +:+ "s: " +:+ exn_str e
                    +:+ "</error></result>")).

End Platform.
End Spotify.

(** ** The thirteen capability functions, as the agents call them *)

Module Capabilities.
Import Py Common Gmail Calendar X Spotify.

(** A capability function together with its arguments. *)
Inductive invocation :=
  | call_read_emails (cv : Context) (unread : bool) (number_of_emails : Z)
      (date_filter : option string)
  | call_search_for_emails (cv : Context) (query : string) (max_results : Z)
      (date_filter : option string)
  | call_write_email (cv : Context) (to subject body : string)
  | call_get_email_by_id (cv : Context) (email_id : string)
  | call_list_upcoming_events (cv : Context) (max_results : Z) (time_min : option string)
  | call_create_event (cv : Context) (summary start_time end_time : string)
      (description location attendees : option string)
  | call_delete_event (cv : Context) (event_id : string)
  | call_update_event (cv : Context) (event_id : string)
      (summary start_time end_time description location attendees : option string)
  | call_send_tweet (cv : Context) (tweet_content : string)
  | call_play (cv : Context) (query content_type : string)
  | call_search (cv : Context) (query search_type : string) (limit : Z)
  | call_get_current_track (cv : Context)
  | call_control_playback (cv : Context) (action : string).

Section Platform.
Context (P : platform).

Definition invoke (i : invocation) : M string :=
  match i with
  | call_read_emails cv unread n f => read_emails P cv unread n f
  | call_search_for_emails cv q n f => search_for_emails P cv q n f
  | call_write_email cv to subject body => write_email P cv to subject body
  | call_get_email_by_id cv email_id => get_email_by_id P cv email_id
  | call_list_upcoming_events cv n t => list_upcoming_events P cv n t
  | call_create_event cv s t1 t2 d l a => create_event P cv s t1 t2 d l a
  | call_delete_event cv event_id => delete_event P cv event_id
  | call_update_event cv event_id s t1 t2 d l a => update_event P cv event_id s t1 t2 d l a
  | call_send_tweet cv tweet_content => send_tweet P cv tweet_content
  | call_play cv q t => play P cv q t
  | call_search cv q t n => search P cv q t n
  | call_get_current_track cv => get_current_track P cv
  | call_control_playback cv action => control_playback P cv action
  end.

(** The statement before the [try]: how the function gets its client. *)
Definition client_of (i : invocation) : M pyval :=
  match i with
  | call_read_emails _ _ _ _ | call_search_for_emails _ _ _ _
  | call_write_email _ _ _ _ | call_get_email_by_id _ _ =>
      '(service, _) ← authenticate_gmail P; mret service
  | call_list_upcoming_events _ _ _ | call_create_event _ _ _ _ _ _ _
  | call_delete_event _ _ | call_update_event _ _ _ _ _ _ _ _ =>
      '(_, service) ← authenticate_gmail P; mret service
  | call_send_tweet _ _ => authenticate_twitter P
  | call_play _ _ _ | call_search _ _ _ _ | call_get_current_track _
  | call_control_playback _ _ => get_spotify_client P
  end.

(** The [try] block of the function, given its client. *)
Definition try_block (i : invocation) (client : pyval) : M string :=
  match i with
  | call_read_emails _ unread n f => read_emails_try P client unread n f
  | call_search_for_emails _ q n f => search_for_emails_try P client q n f
  | call_write_email cv to subject body =>
      write_email_try P client (dict_get cv "email" "unknown@example.com") to subject body
  | call_get_email_by_id _ email_id => get_email_by_id_try P client email_id
  | call_list_upcoming_events _ n t => list_upcoming_events_try P client n t
  | call_create_event _ s t1 t2 d l a => create_event_try P client s t1 t2 d l a
  | call_delete_event _ event_id => delete_event_try P client event_id
  | call_update_event _ event_id s t1 t2 d l a => update_event_try P client event_id s t1 t2 d l a
  | call_send_tweet _ tweet_content => send_tweet_try P client tweet_content
  | call_play _ q t => play_try P client q t
  | call_search _ q t n => search_try P client q t n
  | call_get_current_track _ => get_current_track_try P client
  | call_control_playback _ action => control_playback_try P client action
  end.

End Platform.

(** The text the [except] clause of the function puts before [str(e)]. *)
Definition error_prefix (i : invocation) : string :=
  match i with
  | call_read_emails _ _ _ _ => "Error reading emails: "
  | call_search_for_emails _ _ _ _ => "Error searching emails: "
  | call_write_email _ _ _ _ => "Error sending email: "
  | call_get_email_by_id _ email_id => "Error retrieving email with ID " +:+ email_id +:+ ": "
  | call_list_upcoming_events _ _ _ => "Error listing events: "
  | call_create_event _ _ _ _ _ _ _ => "Error creating event: "
  | call_delete_event _ _ => "Error deleting event: "
  | call_update_event _ _ _ _ _ _ _ _ => "Error updating event: "
  | call_send_tweet _ _ => "Error sending tweet: "
  | call_play _ _ t => "Error playing " +:+ t +:+ ": "
  | call_search _ _ t _ => "Error searching " +:+ t +:+ "s: "
  | call_get_current_track _ => "Error getting current track: "
  | call_control_playback _ _ => "Error controlling playback: "
  end.

(** The calls to Spotify that search, start or steer playback. *)
Definition spotify_action (c : call) : bool :=
  match fst c with
  | sp_search | start_playback | current_playback | pause_playback
  | next_track | previous_track => true
  | _ => false
  end.

(** *** Platforms to run the functions on *)

(** Everything answers None, except the calls that [answers] decides. *)
Definition platform_with (answers : list call -> call -> option (res pyval)) : platform :=
  mkPlatform
    (fun _ => None)
    (fun history c => default (Ok PNone) (answers history c))
    (fun _ _ => "error")
    (fun _ => "<object>")
    (fun path => "")
    (fun dir file => dir +:+ file)
    (fun data => Ok data)
    (fun body to from subject => Ok body)
    (fun t => Ok t)
    (fun l => l).

Definition a_client : pyval := PObj [("valid", PBool true)].

(** No token.json and no credentials.json; the Spotify token endpoint is
    unreachable. *)
Definition signed_out : platform :=
  platform_with (fun _ c =>
    match fst c with
    | os_path_exists => Some (Ok (PBool false))
    | InstalledAppFlow_from_client_secrets_file =>
        Some (Raise (Exn (OtherError "FileNotFoundError")
                       "[Errno 2] No such file or directory: 'credentials.json'"))
    | SpotifyOAuth => Some (Ok a_client)
    | get_access_token =>
        Some (Raise (Exn (OtherError "SpotifyOauthError") "error: invalid_grant"))
    | _ => None
    end).

(** A valid token.json, and a mailbox that holds [inbox]: message ids with
    their messages. Getting any other id is answered with not-found. *)
Definition signed_in (inbox : list (string * pyval)) : platform :=
  platform_with (fun _ c =>
    match c with
    | (os_path_exists, _) => Some (Ok (PBool true))
    | (Credentials_from_authorized_user_file, _) => Some (Ok a_client)
    | (build, _) => Some (Ok a_client)
    | (SpotifyOAuth, _) => Some (Ok a_client)
    | (validate_token, _) => Some (Ok (PBool true))
    | (Spotify, _) => Some (Ok a_client)
    | (messages_list, _) =>
        Some (Ok (PDict [("messages",
                          PList ((fun m => PDict [("id", PStr (fst m))]) <$> inbox))]))
    | (messages_get, [_; _; PStr id]) =>
        match assoc id inbox with
        | Some msg => Some (Ok msg)
        | None => Some (Raise (Exn (OtherError "HttpError")
                                 "<HttpError 404 Requested entity was not found.>"))
        end
    | _ => None
    end).

Definition a_message (subject sender snippet : string) : pyval :=
  PDict [("snippet", PStr snippet);
         ("payload", PDict [("headers",
            PList [PDict [("name", PStr "From"); ("value", PStr sender)];
                   PDict [("name", PStr "Subject"); ("value", PStr subject)]])])].

End Capabilities.

(** ** Notions for the properties of the string helpers *)

Module Text.
Import Py.

(** What [escape] makes of one character. *)
Definition escape_char (c : ascii) : string :=
  if bool_decide (c = "&"%char) then "&amp;"
  else if bool_decide (c = "<"%char) then "&lt;"
  else if bool_decide (c = ">"%char) then "&gt;"
  else String c "".

(** A header with a name other than [name], whatever the case. *)
Definition other_header (P : platform) (name : string) (h : pyval) : Prop :=
  ∃ n, subscript P h (PStr "name") = Ok (PStr n) ∧ lower n ≠ name.

End Text.

(** ** Notions for the properties of the capability functions *)

Module Effects.
Import Py Calendar Capabilities.

(** The calls that change something at a service: sending, creating,
    deleting, updating, posting, starting or steering playback. *)
Definition service_write (c : call) : bool :=
  match fst c with
  | messages_send | events_insert | events_delete | events_update | create_tweet
  | start_playback | pause_playback | next_track | previous_track => true
  | _ => false
  end.

Definition write_count (l : list call) : nat := length (List.filter service_write l).

(** [m] makes at most [k] calls that change something at a service. *)
Definition writes_at_most {A} (k : nat) (m : M A) : Prop :=
  ∀ w r w', m w = (r, w') -> ∃ new, calls w' = calls w ++ new ∧ write_count new <= k.

(** The capability functions that only look things up. *)
Definition read_only (i : invocation) : bool :=
  match i with
  | call_read_emails _ _ _ _ | call_search_for_emails _ _ _ _ | call_get_email_by_id _ _
  | call_list_upcoming_events _ _ _ | call_search _ _ _ _ | call_get_current_track _ => true
  | _ => false
  end.

(** The two paths of authenticate_gmail. *)
Definition credentials_path (P : platform) : string :=
  default "credentials.json" (getenv P "GMAIL_CREDENTIALS_PATH").

Definition token_path (P : platform) : string :=
  os_path_join P (os_path_dirname P (credentials_path P)) "token.json".

(** The keys update_event may write. *)
Definition update_fields : list string :=
  ["summary"; "start"; "end"; "description"; "location"; "attendees"].

(** [after] is [before] with ['dateTime'] set to [x], if [x] is given. *)
Definition updated_time (x : option string) (before after : option pyval) : Prop :=
  if given x then
    ∃ inner0 inner, before = Some (PDict inner0) ∧ after = Some (PDict inner) ∧
      assoc "dateTime" inner = Some (PStr (default "" x)) ∧
      ∀ k, k ≠ "dateTime" -> assoc k inner = assoc k inner0
  else after = before.

End Effects.

(** ** agents.py: the default context, and what the templates read *)

Module Defaults.
Import Instructions.

(** [default_context]: built when agents.py is imported, at time [now], from
    the environment [getenv]. *)
Definition default_context (getenv : string -> option string) (now : string) : Context :=
  <["user_name" := default "User" (getenv "USER_NAME")]>
    (<["email" := default "unknown@example.com" (getenv "USER_EMAIL")]>
      (<["preferred_language" := default "English" (getenv "PREFERRED_LANGUAGE")]>
        (<["location" := default "N/A" (getenv "USER_LOCATION")]>
          (<["twitter_username" := default "N/A" (getenv "TWITTER_USERNAME")]>
            (<["tweet_preferred_language" :=
                 default "English" (getenv "TWEET_PREFERRED_LANGUAGE")]>
              (<["current_datetime" := now]> ∅)))))).

(** The five templates, each with the context keys its text reads. *)
Definition templates : list ((string -> Context -> string) * list string) :=
  [(base_assistant_instructions,
    ["user_name"; "preferred_language"; "location"; "current_datetime"]);
   (email_assistant_instructions, ["user_name"; "email"; "preferred_language"]);
   (calendar_assistant_instructions,
    ["user_name"; "current_datetime"; "preferred_language"; "location"]);
   (social_media_assistant_instructions,
    ["user_name"; "twitter_username"; "tweet_preferred_language"]);
   (music_assistant_instructions, ["user_name"; "preferred_language"])].

End Defaults.

(** ** telegram_api.py: the access checks *)

Module Telegram.
Import Py.

Definition CHECK_ALLOWED : bool := false.
Definition ALLOWED_USERS : list string := ["5158783121"].
Definition ADMIN_USERS : list string := ["5158783121"].

(** The part of a telegram [Update] the checks and set_bot_menu look at: the
    ids of the user and of the chat, and whether there is a message; each
    can be None. *)
Record Update := mkUpdate {
  effective_user : option Z;
  effective_chat : option Z;
  message : option string
}.

(** What a handler does: lines printed and calls to the bot. *)
Inductive action :=
  | print (line : string)
  | send_message (chat_id : Z) (text : string)
  | set_my_commands (commands : list (string * string))
  | reply_text (text : string).

(** A coroutine, run to its end: the state is the actions done so far. *)
Definition T (A : Type) : Type := list action -> res A * list action.

#[global] Instance T_ret : MRet T := fun A a done => (Ok a, done).
#[global] Instance T_bind : MBind T :=
  fun A B f m done => match m done with
                      | (Ok a, done') => f a done'
                      | (Raise e, done') => (Raise e, done')
                      end.

Definition attribute_of_None (name : string) : exn :=
  Exn AttributeError ("'NoneType' object has no attribute '" +:+ name +:+ "'").

(** [update.effective_user.id] *)
Definition user_id (update : Update) : T Z :=
  fun done => match effective_user update with
              | Some id => (Ok id, done)
              | None => (Raise (attribute_of_None "id"), done)
              end.

(** [update.effective_chat.id] *)
Definition chat_id (update : Update) : T Z :=
  fun done => match effective_chat update with
              | Some id => (Ok id, done)
              | None => (Raise (attribute_of_None "id"), done)
              end.

Section Bot.
(** Whether a call to the bot raises, given what was done before it. *)
Variable fails : list action -> action -> option exn.

(** [print(x)] *)
Definition say (line : string) : T unit := fun done => (Ok tt, done ++ [print line]).

(** [await <a call to the bot>] *)
Definition await (a : action) : T unit :=
  fun done => (match fails done a with
               | None => Ok tt
               | Some e => Raise e
               end, done ++ [a]).

(** [check_allowed_user(func)], with the value the global CHECK_ALLOWED has
    when the wrapper runs. The wrapper returns None when it turns the user
    away, and what [func] returns otherwise. *)
Definition check_allowed_user {A} (check : bool) (func : Update -> T A) (update : Update)
    : T (option A) :=
  turned_away ← (if check then
                   id ← user_id update; mret (negb (bool_decide (pretty id ∈ ALLOWED_USERS)))
                 else mret false);
  if turned_away : bool then
    id ← user_id update;
    _ ← say (pretty id);
    chat ← chat_id update;
    _ ← await (send_message chat "Nie masz uprawnień do korzystania z tego bota 😥");
    mret None
  else
    a ← func update; mret (Some a).

(** [check_admin_user(func)] *)
Definition check_admin_user {A} (func : Update -> T A) (update : Update) : T (option A) :=
  id ← user_id update;
  if negb (bool_decide (pretty id ∈ ADMIN_USERS)) then
    id ← user_id update;
    _ ← say (pretty id);
    chat ← chat_id update;
    _ ← await (send_message chat "Nie jestes adminem.");
    mret None
  else
    a ← func update; mret (Some a).

(** The body of TelegramBot.set_bot_menu; the warning it logs has the chat
    id in it. *)
Definition set_bot_menu_body (update : Update) : T unit :=
  _ ← chat_id update;
  _ ← await (set_my_commands [("caps", "🔠 Caps")]);
  match message update with
  | Some _ => await (reply_text "Menu ustawione!")
  | None => fun done => (Raise (attribute_of_None "reply_text"), done)
  end.

(** [@check_admin_user async def set_bot_menu] *)
Definition set_bot_menu : Update -> T (option unit) := check_admin_user set_bot_menu_body.

End Bot.

Definition is_set_my_commands (a : action) : bool :=
  match a with
  | set_my_commands _ => true
  | _ => false
  end.

End Telegram.

(** ** Platforms and updates to run the functions on *)

Module Fixtures.
Import Py Common Spotify Capabilities Telegram.

(** The world after get_spotify_client has found a valid cached token. *)
Definition spotify_world : world :=
  mkWorld [(SpotifyOAuth, [PNone; PNone; PNone; PStr scope; PBool false]);
           (get_cached_token, [a_client]);
           (validate_token, [a_client; PNone]);
           (Spotify, [a_client])] (Some a_client).

(** The world after authenticate_gmail has found a valid token. *)
Definition signed_in_world : world :=
  mkWorld [(os_path_exists, [PStr "token.json"]);
           (Credentials_from_authorized_user_file, [PStr "token.json"; SCOPES]);
           (build, [PStr "gmail"; PStr "v1"; a_client]);
           (build, [PStr "calendar"; PStr "v3"; a_client])] None.

Definition from_header : pyval := PDict [("name", PStr "From"); ("value", PStr "ann@example.com")].
Definition subject_header : pyval := PDict [("name", PStr "SUBJECT"); ("value", PStr "Hi")].

(** token.json is there and loads as [loaded] says. *)
Definition token_loading (loaded : res pyval) : platform :=
  platform_with (fun _ c =>
    match fst c with
    | os_path_exists => Some (Ok (PBool true))
    | Credentials_from_authorized_user_file => Some loaded
    | _ => None
    end).

Definition expired_creds : pyval :=
  PObj [("valid", PBool false); ("expired", PBool true); ("refresh_token", PStr "1//0gxyz")].

Definition corrupt : exn :=
  Exn ValueError
    "Authorized user info was not in the expected format, missing fields refresh_token.".

(** Signed in; the calendar answers a get with [event], the Spotify search
    with [found]; [datetime.fromisoformat] accepts what starts with "20". *)
Definition signed_in_with (event found : pyval) : platform :=
  mkPlatform
    (fun _ => None)
    (fun _ c =>
       match fst c with
       | os_path_exists | validate_token => Ok (PBool true)
       | Credentials_from_authorized_user_file | build | SpotifyOAuth | Spotify => Ok a_client
       | events_get => Ok event
       | sp_search => Ok found
       | _ => Ok PNone
       end)
    (fun _ _ => "error")
    (fun _ => "<object>")
    (fun path => "")
    (fun dir file => dir +:+ file)
    (fun data => Ok data)
    (fun body to from subject => Ok body)
    (fun t => if is_prefix "20" t then Ok t
              else Raise (Exn ValueError ("Invalid isoformat string: '" +:+ t +:+ "'")))
    (fun l => l).

Definition lunch : pyval :=
  PDict [("id", PStr "e1"); ("summary", PStr "Lunch");
         ("start", PDict [("dateTime", PStr "2024-05-01T12:00:00Z"); ("timeZone", PStr "UTC")]);
         ("end", PDict [("dateTime", PStr "2024-05-01T13:00:00Z"); ("timeZone", PStr "UTC")]);
         ("colorId", PStr "5")].

Definition nameless_track : pyval :=
  PDict [("tracks", PDict [("items", PList [PDict [("uri", PStr "spotify:track:1")]])])].

(** A bot whose calls all return. *)
Definition reliable : list action -> action -> option exn := fun _ _ => None.

Definition from_a_stranger : Update := mkUpdate (Some 42%Z) (Some 7%Z) (Some "/setmenu").

Definition from_the_admin : Update :=
  mkUpdate (Some 5158783121%Z) (Some 5158783121%Z) (Some "/setmenu").

End Fixtures.

(** * Properties *)

(** ** The agent registry *)

Section Registry_facts.
Import Instructions Registry.
Variable getenv : string -> option string.

Lemma bound_lookup n g :
  bound n g !! "base_agent" = Some (n + 0) ∧ bound n g !! "email_agent" = Some (n + 1) ∧
  bound n g !! "calendar_agent" = Some (n + 2) ∧
  bound n g !! "social_media_agent" = Some (n + 3) ∧ bound n g !! "music_agent" = Some (n + 4).
Proof. unfold bound. repeat split; by simplify_map_eq. Qed.

Lemma lookup_past (h l : list Agent) k : (h ++ l) !! (length h + k) = l !! k.
Proof. rewrite lookup_app_r by lia. f_equal. lia. Qed.

(** Running the module body in any state allocates the five agents behind
    the objects that exist and rebinds the five names to them. *)
Lemma agents_module_run s :
  agents_module getenv s
  = Some (mkState (heap s ++ built getenv) (bound (length (heap s)) (globals s))).
Proof.
  destruct s as [h g]. unfold agents_module, build_agents, new_agent. cbn [heap globals].
  rewrite !length_app. cbn [length].
  rewrite <- !(assoc_L (++) h). cbn [app].
  replace (length h + 1 + 1 + 1 + 1) with (length h + 4) by lia.
  replace (length h + 1 + 1 + 1) with (length h + 3) by lia.
  replace (length h + 1 + 1) with (length h + 2) by lia.
  replace (<["base_agent" := length h]> g) with (<["base_agent" := length h + 0]> g)
    by (f_equal; lia).
  fold (bound (length h) g).
  destruct (bound_lookup (length h) g) as (Hb & He & Hc & Hs & Hm).
  unfold set_functions, append_transfer_back, functions_append, load_global, deref.
  cbn [heap globals].
  rewrite Hb. cbn. rewrite lookup_past. cbn. rewrite insert_app_r. cbn.
  rewrite He. cbn. rewrite lookup_past. cbn. rewrite insert_app_r. cbn.
  rewrite Hc. cbn. rewrite lookup_past. cbn. rewrite insert_app_r. cbn.
  rewrite Hs. cbn. rewrite lookup_past. cbn. rewrite insert_app_r. cbn.
  rewrite Hm. cbn. rewrite lookup_past. cbn. rewrite insert_app_r. cbn.
  reflexivity.
Qed.

(** The agent a name is bound to after a run. *)
Lemma agent_of_run s k var a :
  bound (length (heap s)) (globals s) !! var = Some (length (heap s) + k) ->
  built getenv !! k = Some a ->
  agent_of var (mkState (heap s ++ built getenv) (bound (length (heap s)) (globals s))) = Some a.
Proof.
  intros Hv Ha. unfold agent_of, load_global, deref. cbn [heap globals].
  rewrite Hv. cbn. by rewrite lookup_past.
Qed.

Lemma specialist_cases (Q : string -> Prop) :
  Q "email_agent" -> Q "calendar_agent" -> Q "social_media_agent" -> Q "music_agent" ->
  ∀ sp, sp ∈ specialists -> Q sp.
Proof.
  intros H1 H2 H3 H4 sp Hsp. unfold specialists in Hsp.
  repeat (apply elem_of_cons in Hsp as [-> | Hsp]; [assumption |]).
  by apply elem_of_nil in Hsp.
Qed.

(** C2: the transfer graph over the registry is a star. After the module body
    has run, the base agent's function list is, position by position, one
    transfer function for each of the four specialists (distinct agents, none
    of them the base agent); and in every specialist's function list the only
    transfer function is transfer_back_to_base_agent, which returns the base
    agent and hence no specialist. *)
Theorem transfer_graph_is_a_star :
  ∃ s base_addr base,
    agents_module getenv initial = Some s ∧
    load_global "base_agent" s = Some base_addr ∧ deref base_addr s = Some base ∧
    Forall2 (fun f sp => is_transfer f = true ∧ is_Some (load_global sp s) ∧
                         transfer_result f s = load_global sp s)
            (functions base) specialists ∧
    NoDup ((fun var => load_global var s) <$> agent_names) ∧
    ∀ sp, sp ∈ specialists ->
      ∃ a, agent_of sp s = Some a ∧
        filter (fun f => is_transfer f = true) (functions a) = [fn_transfer_back_to_base_agent] ∧
        ∀ f, f ∈ functions a -> is_transfer f = true ->
          transfer_result f s = Some base_addr ∧
          ∀ other, other ∈ specialists -> transfer_result f s ≠ load_global other s.
Proof.
  eexists _, 0, _. split; [apply agents_module_run |]. cbn [heap globals initial length app].
  destruct (bound_lookup 0 ∅) as (Hb & He & Hc & Hs & Hm).
  unfold load_global, deref, transfer_result. cbn [heap globals].
  split; [exact Hb |]. split; [reflexivity |]. cbn [functions].
  split.
  { unfold specialists.
    repeat (constructor; [split; [reflexivity |]; cbn;
              unfold load_global; cbn [globals];
              first [rewrite He | rewrite Hc | rewrite Hs | rewrite Hm]; eauto |]).
    constructor. }
  split.
  { unfold agent_names, specialists. cbn. rewrite Hb, He, Hc, Hs, Hm.
    apply (bool_decide_unpack _). by vm_compute. }
  apply specialist_cases; (eexists; split;
    [ first [ apply (agent_of_run initial 1 "email_agent"); [exact He | reflexivity]
            | apply (agent_of_run initial 2 "calendar_agent"); [exact Hc | reflexivity]
            | apply (agent_of_run initial 3 "social_media_agent"); [exact Hs | reflexivity]
            | apply (agent_of_run initial 4 "music_agent"); [exact Hm | reflexivity] ]
    | split; [reflexivity |] ]);
    intros f Hf Ht; cbn [functions] in Hf;
    repeat (apply elem_of_cons in Hf as [-> | Hf]; [try discriminate Ht |]);
    try (by apply elem_of_nil in Hf);
    cbn; unfold load_global; cbn [globals]; rewrite Hb; (split; [reflexivity |]);
    apply specialist_cases; rewrite ?He, ?Hc, ?Hs, ?Hm; discriminate.
Qed.

(** C3 (amended): the module body registers transfer_back_to_base_agent once.
    Run in any state, also the one an earlier run has left, the body ends
    with every specialist name bound to an agent whose function list has no
    two entries of the same name and holds transfer_back_to_base_agent
    exactly once: each run builds the specialists' lists anew before it
    appends. *)
Theorem construction_registers_transfer_back_once s :
  ∃ s', agents_module getenv s = Some s' ∧
    ∀ sp, sp ∈ specialists ->
      ∃ a, agent_of sp s' = Some a ∧
        NoDup (func_name <$> functions a) ∧
        count_occ func_eq_dec (functions a) fn_transfer_back_to_base_agent = 1.
Proof.
  eexists. split; [apply agents_module_run |].
  destruct (bound_lookup (length (heap s)) (globals s)) as (Hb & He & Hc & Hs & Hm).
  apply specialist_cases; (eexists; split;
    [ first [ apply (agent_of_run s 1 "email_agent"); [exact He | reflexivity]
            | apply (agent_of_run s 2 "calendar_agent"); [exact Hc | reflexivity]
            | apply (agent_of_run s 3 "social_media_agent"); [exact Hs | reflexivity]
            | apply (agent_of_run s 4 "music_agent"); [exact Hm | reflexivity] ]
    | split; [apply (bool_decide_unpack _); by vm_compute | reflexivity] ]).
Qed.

(** C5: the transfer functions are pure lookups. Each of the five takes
    nothing but the interpreter state, leaves every state as it found it, and
    in the registry the module body builds it returns one fixed agent, call
    after call: transfer_to_email_agent the agent named "Email Assistant",
    the other three their specialists, transfer_back_to_base_agent the base
    agent. *)
Theorem transfer_functions_are_pure_lookups :
  ∃ s, agents_module getenv initial = Some s ∧
    ∀ f body, transfer_body f = Some body ->
      (∀ s0, snd (body s0) = s0) ∧
      ∃ target a,
        (∀ k, fst (body (Nat.iter k (fun x => snd (body x)) s)) = Some target) ∧
        deref target s = Some a ∧
        agent_of (match f with
                  | fn_transfer_to_email_agent => "email_agent"
                  | fn_transfer_to_calendar_agent => "calendar_agent"
                  | fn_transfer_to_social_media_agent => "social_media_agent"
                  | fn_transfer_to_music_agent => "music_agent"
                  | _ => "base_agent"
                  end) s = Some a ∧
        name a = match f with
                 | fn_transfer_to_email_agent => "Email Assistant"
                 | fn_transfer_to_calendar_agent => "Calendar Assistant"
                 | fn_transfer_to_social_media_agent => "Social Media Assistant"
                 | fn_transfer_to_music_agent => "Music Assistant"
                 | _ => "Base Assistant"
                 end.
Proof.
  eexists. split; [apply agents_module_run |]. cbn [heap globals initial length app].
  destruct (bound_lookup 0 ∅) as (Hb & He & Hc & Hs & Hm).
  assert (Hiter : ∀ (body : pystate -> option nat * pystate) s k,
            (∀ s0, snd (body s0) = s0) -> Nat.iter k (fun x => snd (body x)) s = s).
  { intros body s k Hpure. induction k as [| k IH]; [reflexivity |].
    rewrite Nat.iter_succ, IH. apply Hpure. }
  intros f body Hf.
  destruct f; try discriminate Hf; injection Hf as <-; (split; [reflexivity |]).
  - exists 1. eexists. split; [| split; [reflexivity | split; [| reflexivity]]].
    + intros k. rewrite (Hiter transfer_to_email_agent _ k (fun _ => eq_refl)). exact He.
    + apply (agent_of_run initial 1 "email_agent"); [exact He | reflexivity].
  - exists 2. eexists. split; [| split; [reflexivity | split; [| reflexivity]]].
    + intros k. rewrite (Hiter transfer_to_calendar_agent _ k (fun _ => eq_refl)). exact Hc.
    + apply (agent_of_run initial 2 "calendar_agent"); [exact Hc | reflexivity].
  - exists 3. eexists. split; [| split; [reflexivity | split; [| reflexivity]]].
    + intros k. rewrite (Hiter transfer_to_social_media_agent _ k (fun _ => eq_refl)). exact Hs.
    + apply (agent_of_run initial 3 "social_media_agent"); [exact Hs | reflexivity].
  - exists 4. eexists. split; [| split; [reflexivity | split; [| reflexivity]]].
    + intros k. rewrite (Hiter transfer_to_music_agent _ k (fun _ => eq_refl)). exact Hm.
    + apply (agent_of_run initial 4 "music_agent"); [exact Hm | reflexivity].
  - exists 0. eexists. split; [| split; [reflexivity | split; [| reflexivity]]].
    + intros k. rewrite (Hiter transfer_back_to_base_agent _ k (fun _ => eq_refl)). exact Hb.
    + apply (agent_of_run initial 0 "base_agent"); [exact Hb | reflexivity].
Qed.

(** C4 (amended): every agent of the registry renders its instructions from
    the empty context, and the text is the one it renders from the context
    that holds the templates' own fallbacks: "User" for user_name, "English"
    for preferred_language, "N/A" for location, email and twitter_username,
    "Polish" for tweet_preferred_language and the clock reading for
    current_datetime. *)
Theorem empty_context_renders_with_fallbacks :
  ∃ s, agents_module getenv initial = Some s ∧
    ∀ a now, a ∈ heap s ->
      ∃ prompt, instructions a now ∅ = prompt ∧ prompt = instructions a now (fallbacks now).
Proof.
  eexists. split; [apply agents_module_run |]. cbn [heap initial app].
  intros a now Ha. eexists. split; [reflexivity |].
  unfold built in Ha.
  repeat (apply elem_of_cons in Ha as [-> | Ha]); [.. | by apply elem_of_nil in Ha];
    cbn [instructions];
    unfold base_assistant_instructions, email_assistant_instructions,
      calendar_assistant_instructions, social_media_assistant_instructions,
      music_assistant_instructions, dict_get, fallbacks;
    rewrite !lookup_empty; by simplify_map_eq.
Qed.

(** C6 (amended): rendering is a function of the context and of the clock
    reading, and of the context alone when the context has current_datetime
    or the agent is the email, social-media or music agent, whose templates
    do not read the clock: two runs on the same such context give the same
    prompt whatever the time of each run. *)
Theorem rendering_is_deterministic_given_datetime :
  ∃ s, agents_module getenv initial = Some s ∧
    ∀ a (context_variables : Context) now1 now2,
      a ∈ heap s ->
      is_Some (context_variables !! "current_datetime")
      ∨ name a ∈ ["Email Assistant"; "Social Media Assistant"; "Music Assistant"] ->
      instructions a now1 context_variables = instructions a now2 context_variables.
Proof.
  eexists. split; [apply agents_module_run |]. cbn [heap initial app].
  intros a cv now1 now2 Ha Hcase. unfold built in Ha.
  repeat (apply elem_of_cons in Ha as [-> | Ha]); [.. | by apply elem_of_nil in Ha];
    cbn [instructions name] in *; try reflexivity.
  - destruct Hcase as [[t Ht] | Hn].
    + unfold base_assistant_instructions, dict_get. by rewrite Ht.
    + repeat (apply elem_of_cons in Hn as [Hn | Hn]; [discriminate Hn |]).
      by apply elem_of_nil in Hn.
  - destruct Hcase as [[t Ht] | Hn].
    + unfold calendar_assistant_instructions, dict_get. by rewrite Ht.
    + repeat (apply elem_of_cons in Hn as [Hn | Hn]; [discriminate Hn |]).
      by apply elem_of_nil in Hn.
Qed.

End Registry_facts.

(** C3, as stated, fails: run the [append] statements a second time on the
    registry the module body has built, and the email agent lists
    transfer_back_to_base_agent twice. *)
Lemma appending_twice_duplicates :
  ∃ s s2 a,
    Registry.agents_module (fun _ => None) Registry.initial = Some s ∧
    Registry.append_transfer_back s = Some s2 ∧
    Registry.agent_of "email_agent" s2 = Some a ∧
    Registry.func_name <$> Registry.functions a
    = ["read_emails"; "get_email_by_id"; "search_for_emails"; "write_email";
       "transfer_back_to_base_agent"; "transfer_back_to_base_agent"] ∧
    ¬ NoDup (Registry.func_name <$> Registry.functions a).
Proof.
  eexists _, _, _. split; [apply agents_module_run |].
  split; [by vm_compute |]. split; [by vm_compute |]. split; [reflexivity |].
  apply (bool_decide_eq_false_1 _). by vm_compute.
Qed.

(** C4, as stated, fails: from the empty context the social-media agent's
    prompt gives the language as Polish; "English" occurs nowhere in it, and
    it is not the prompt of a context whose tweet language is English. *)
Lemma social_media_prompt_falls_back_to_Polish :
  ∃ s a,
    Registry.agents_module (fun _ => None) Registry.initial = Some s ∧
    Registry.agent_of "social_media_agent" s = Some a ∧
    let prompt := Registry.instructions a "2024-05-01T09:00:00" ∅ in
    Py.contains "User Language: Polish" prompt = true ∧
    Py.contains "English" prompt = false ∧
    prompt ≠ Registry.instructions a "2024-05-01T09:00:00"
               {[ "tweet_preferred_language" := "English" ]}.
Proof.
  eexists _, _. split; [apply agents_module_run |].
  split; [apply (agent_of_run _ Registry.initial 3); [apply bound_lookup | reflexivity] |].
  cbn zeta.
  split; [by vm_compute |]. split; [by vm_compute |].
  cbn [Registry.instructions]. unfold Instructions.social_media_assistant_instructions, dict_get.
  rewrite !lookup_empty, lookup_singleton_eq, lookup_singleton_ne by done.
  cbn. intros H. by vm_compute in H.
Qed.

(** C6, as stated, fails: the base agent renders the empty context into two
    different prompts at two different times. *)
Lemma base_prompt_depends_on_the_clock :
  ∃ s a,
    Registry.agents_module (fun _ => None) Registry.initial = Some s ∧
    Registry.agent_of "base_agent" s = Some a ∧
    Registry.instructions a "2024-05-01T09:00:00" ∅
    ≠ Registry.instructions a "2024-05-01T09:00:01" ∅.
Proof.
  eexists _, _. split; [apply agents_module_run |].
  split; [apply (agent_of_run _ Registry.initial 0); [apply bound_lookup | reflexivity] |].
  cbn [Registry.instructions]. unfold Instructions.base_assistant_instructions, dict_get.
  rewrite !lookup_empty. cbn. intros H. by vm_compute in H.
Qed.

(** The base agent, with current_datetime in the context, at two times. *)
Lemma rendering_is_deterministic_given_datetime_witness :
  ∃ s a,
    Registry.agents_module (fun _ => None) Registry.initial = Some s ∧
    a ∈ Registry.heap s ∧ Registry.name a = "Base Assistant" ∧
    Registry.instructions a "2024-05-01T09:00:00" {[ "current_datetime" := "2024-04-30T08:00:00" ]}
    = Registry.instructions a "2024-05-01T09:00:01" {[ "current_datetime" := "2024-04-30T08:00:00" ]}.
Proof.
  destruct (rendering_is_deterministic_given_datetime (fun _ => None)) as (s & Hs & Hdet).
  rewrite agents_module_run in Hs. injection Hs as <-.
  eexists _, _. split; [apply agents_module_run |].
  split; [apply list_elem_of_here |]. split; [reflexivity |].
  apply Hdet.
  - apply list_elem_of_here.
  - left. rewrite lookup_singleton_eq. eauto.
Defined.

(** ** Strings *)

Section String_facts.
Import Py.

Lemma append_cons x (a b : string) : String x a +:+ b = String x (a +:+ b).
Proof. reflexivity. Qed.

Lemma append_assoc (a b c : string) : (a +:+ b) +:+ c = a +:+ (b +:+ c).
Proof. induction a as [| x a IH]; [reflexivity |]. by rewrite !append_cons, IH. Qed.

Lemma is_prefix_append (p s : string) : is_prefix p (p +:+ s) = true.
Proof.
  induction p as [| x p IH]; [reflexivity |].
  rewrite append_cons. cbn. rewrite IH. by rewrite bool_decide_eq_true_2.
Qed.

Lemma contains_here (needle s : string) : contains needle (needle +:+ s) = true.
Proof.
  assert (H := is_prefix_append needle s).
  destruct (needle +:+ s); cbn; by rewrite H.
Qed.

Lemma contains_append_r (needle p s : string) :
  contains needle s = true -> contains needle (p +:+ s) = true.
Proof.
  intros H. induction p as [| x p IH]; [exact H |].
  rewrite append_cons. cbn. rewrite IH. apply orb_true_r.
Qed.

Lemma contains_char_cons c x s :
  contains (String c "") (String x s) = bool_decide (c = x) || contains (String c "") s.
Proof. cbn. by rewrite andb_true_r. Qed.

Lemma contains_char_append c (a b : string) :
  contains (String c "") (a +:+ b) = contains (String c "") a || contains (String c "") b.
Proof.
  induction a as [| x a IH]; [reflexivity |].
  rewrite append_cons, !contains_char_cons, IH. apply orb_assoc.
Qed.

(** [replace] leaves no [old] behind when [new] has none. *)
Lemma replace_removes old new s :
  contains (String old "") new = false ->
  contains (String old "") (replace old new s) = false.
Proof.
  intros Hnew. induction s as [| x s IH]; [reflexivity |].
  cbn [replace]. case_bool_decide as Hx.
  - by rewrite contains_char_append, Hnew, IH.
  - rewrite contains_char_cons, IH. rewrite bool_decide_eq_false_2; [reflexivity | congruence].
Qed.

(** [replace] brings in no [c] that neither [s] nor [new] has. *)
Lemma replace_keeps_out c old new s :
  contains (String c "") new = false ->
  contains (String c "") s = false ->
  contains (String c "") (replace old new s) = false.
Proof.
  intros Hnew. induction s as [| x s IH]; [reflexivity |].
  rewrite contains_char_cons. intros [Hx Hs]%orb_false_elim.
  cbn [replace]. destruct (bool_decide (x = old)).
  - by rewrite contains_char_append, Hnew, IH.
  - by rewrite contains_char_cons, Hx, IH.
Qed.

(** Escaped text has no angle bracket. *)
Lemma escape_has_no_angle s :
  contains "<" (escape s) = false ∧ contains ">" (escape s) = false.
Proof.
  unfold escape. split.
  - apply replace_keeps_out; [reflexivity |]. by apply replace_removes.
  - by apply replace_removes.
Qed.

(** A text names what it has between two other texts. *)
Lemma contains_infix (needle p s : string) : contains needle (p +:+ needle +:+ s) = true.
Proof. apply contains_append_r, contains_here. Qed.

End String_facts.

(** ** The capability functions *)

Section Capability_facts.
Import Py Common Gmail Calendar X Spotify Capabilities.
Context (P : platform).

Lemma bind_run {A B} (m : M A) (f : A -> M B) w :
  (m ≫= f) w = match m w with
               | (Ok a, w') => f a w'
               | (Raise e, w') => (Raise e, w')
               end.
Proof. reflexivity. Qed.

Lemma ret_run {A} (a : A) w : (mret a : M A) w = (Ok a, w).
Proof. reflexivity. Qed.

(** A [try] whose [except Exception] clause returns a value always returns:
    the value of the block, or the handler's value for what the block
    raised. *)
Lemma handled {A} (m : M A) (f : exn -> A) w :
  ∃ a w', try_except m (fun e => mret (f e)) w = (Ok a, w') ∧
    (∀ e w'', m w = (Raise e, w'') -> a = f e ∧ w' = w'') ∧
    (∀ r w'', m w = (Ok r, w'') -> a = r ∧ w' = w'').
Proof.
  unfold try_except. destruct (m w) as [[r | e] w0].
  - exists r, w0. split; [reflexivity |]. split; intros ? ? [=]; by subst.
  - exists (f e), w0. split; [reflexivity |]. split; intros ? ? [=]; by subst.
Qed.

(** C1 (amended): once a capability function has its client (the statement
    before its [try] has returned), it returns a string and raises nothing:
    the value of its [try] block, or, for any exception a step of the block
    raises, the payload <result><error>PREFIX str(e)</error></result> with
    the function's own prefix. *)
Theorem caught_after_client i w client w1 :
  client_of P i w = (Ok client, w1) ->
  ∃ s w2, invoke P i w = (Ok s, w2) ∧
    (∀ e w', try_block P i client w1 = (Raise e, w') ->
       s = error_payload (error_prefix i +:+ exn_str e) ∧ w2 = w') ∧
    (∀ r w', try_block P i client w1 = (Ok r, w') -> s = r ∧ w2 = w').
Proof.
  intros Hclient.
  destruct i; cbn [invoke client_of try_block error_prefix] in *;
    unfold read_emails, search_for_emails, write_email, get_email_by_id,
      list_upcoming_events, create_event, delete_event, update_event,
      send_tweet, play, search, get_current_track, control_playback;
    try rewrite bind_run in Hclient; rewrite bind_run.
  all: try (destruct (authenticate_gmail P w) as [[[gmail calendar] | e0] w0];
            [rewrite ret_run in Hclient; injection Hclient as <- <- | discriminate Hclient]).
  all: try rewrite Hclient.
  all: match goal with
       | |- ∃ s w2, try_except ?m (fun e => mret (@?f e)) ?w = _ ∧ _ =>
           destruct (handled m f w) as (s & w2 & Hrun & Hraise & Hok);
           exists s, w2; split; [exact Hrun |]; split; [| exact Hok];
           intros e w' He; destruct (Hraise e w' He) as [-> ->]; split; [| reflexivity];
           unfold error_payload; rewrite ?append_assoc; reflexivity
       end.
Qed.

(** C7: get_email_by_id on a mailbox whose message-get raises. When the
    service is there and getting the message with the id raises [e] (not
    found), the call returns (no exception leaves it) the error payload
    "Error retrieving email with ID <id>: <str(e)>", which names the id. *)
Theorem get_email_by_id_reports_not_found cv email_id w service calendar w1 e :
  authenticate_gmail P w = (Ok (service, calendar), w1) ->
  respond P (calls w1) (messages_get, [service; PStr "me"; PStr email_id]) = Raise e ->
  ∃ payload w2,
    get_email_by_id P cv email_id w = (Ok payload, w2) ∧
    payload = error_payload ("Error retrieving email with ID " +:+ email_id +:+ ": "
                             +:+ exn_str e) ∧
    contains email_id payload = true.
Proof.
  intros Hauth Hget. unfold get_email_by_id. rewrite bind_run, Hauth.
  unfold try_except, get_email_by_id_try. rewrite bind_run.
  unfold perform at 1. rewrite Hget. rewrite ret_run.
  eexists _, _. split; [reflexivity |]. split.
  - unfold error_payload. rewrite ?append_assoc. reflexivity.
  - apply (contains_infix email_id "<result><error>Error retrieving email with ID ").
Qed.

(** *** Which calls a computation makes *)

Lemma makes_only_ret {A} Q (a : A) : makes_only Q (mret a).
Proof. intros w r w' [= <- <-]. exists []. by rewrite app_nil_r. Qed.

Lemma makes_only_raise {A} Q e : makes_only Q (@raise A e).
Proof. intros w r w' [= <- <-]. exists []. by rewrite app_nil_r. Qed.

Lemma makes_only_perform (Q : call -> Prop) o args : Q (o, args) -> makes_only Q (perform P o args).
Proof. intros HQ w r w' [= <- <-]. exists [(o, args)]. split; [reflexivity |]. by constructor. Qed.

Lemma makes_only_bind {A B} Q (m : M A) (f : A -> M B) :
  makes_only Q m -> (∀ a, makes_only Q (f a)) -> makes_only Q (m ≫= f).
Proof.
  intros Hm Hf w r w'. rewrite bind_run.
  destruct (m w) as [[a | e] w0] eqn:E; destruct (Hm _ _ _ E) as (new0 & H0 & HQ0).
  - intros Hrun. destruct (Hf a _ _ _ Hrun) as (new1 & H1 & HQ1).
    exists (new0 ++ new1). rewrite H1, H0, app_assoc. split; [reflexivity |].
    by apply Forall_app.
  - intros [= <- <-]. eauto.
Qed.

Lemma makes_only_try {A} Q (m : M A) (h : exn -> M A) :
  makes_only Q m -> (∀ e, makes_only Q (h e)) -> makes_only Q (try_except m h).
Proof.
  intros Hm Hh w r w'. unfold try_except.
  destruct (m w) as [[a | e] w0] eqn:E; destruct (Hm _ _ _ E) as (new0 & H0 & HQ0).
  - intros [= <- <-]. eauto.
  - intros Hrun. destruct (Hh e _ _ _ Hrun) as (new1 & H1 & HQ1).
    exists (new0 ++ new1). rewrite H1, H0, app_assoc. split; [reflexivity |].
    by apply Forall_app.
Qed.

(** Getting the Spotify client searches nothing and steers no playback. *)
Lemma get_spotify_client_makes_no_action :
  makes_only (fun c => spotify_action c = false) (get_spotify_client P).
Proof.
  assert (Hauth : makes_only (fun c => spotify_action c = false) (authenticate_spotify P)).
  { unfold authenticate_spotify.
    apply makes_only_try; [| intros; apply makes_only_raise].
    repeat first [ apply makes_only_bind; [| intros ?]
                 | apply makes_only_perform; reflexivity
                 | apply makes_only_ret
                 | match goal with |- makes_only _ (if ?b then _ else _) => destruct b end ]. }
  intros w r w'. unfold get_spotify_client.
  destruct (spotify_client_cache w).
  - intros [= <- <-]. exists []. by rewrite app_nil_r.
  - destruct (authenticate_spotify P w) as [[sp | e] w0] eqn:E;
      destruct (Hauth _ _ _ E) as (new & Hnew & HQ); intros [= <- <-]; eauto.
Qed.

(** C9 (amended): once get_spotify_client has returned the client, play with
    a content type outside {track, album, artist, playlist}, search with a
    search type outside its seven, and control_playback with an action
    outside {play, pause, next, previous} return an error payload that names
    the value, in the world that getting the client left: no call follows,
    and getting the client makes no search, playback or control call. *)
Theorem invalid_spotify_arguments_are_rejected cv query w sp w1 :
  get_spotify_client P w = (Ok sp, w1) ->
  (∀ content_type, content_type ∉ play_valid_types ->
     ∃ payload,
       play P cv query content_type w = (Ok payload, w1) ∧
       payload = error_payload ("Invalid content type: '" +:+ content_type
                                +:+ "'. Valid types are: "
                                +:+ join ", " (set_iteration P play_valid_types)) ∧
       contains content_type payload = true) ∧
  (∀ search_type limit, search_type ∉ search_valid_types ->
     ∃ payload,
       search P cv query search_type limit w = (Ok payload, w1) ∧
       payload = error_payload ("Invalid search type: '" +:+ search_type
                                +:+ "'. Valid types are: "
                                +:+ join ", " (set_iteration P search_valid_types)) ∧
       contains search_type payload = true) ∧
  (∀ action, action ∉ ["play"; "pause"; "next"; "previous"] ->
     ∃ payload,
       control_playback P cv action w = (Ok payload, w1) ∧
       payload = error_payload ("Invalid action: " +:+ action) ∧
       contains action payload = true) ∧
  ∃ acquiring, calls w1 = calls w ++ acquiring ∧
               Forall (fun c => spotify_action c = false) acquiring.
Proof.
  intros Hclient. repeat split.
  - intros content_type Hbad. eexists. split; [| split].
    + unfold play. rewrite bind_run, Hclient. unfold try_except, play_try.
      rewrite bool_decide_eq_false_2 by exact Hbad. cbn [negb]. rewrite ret_run. reflexivity.
    + unfold error_payload. rewrite ?append_assoc. reflexivity.
    + apply (contains_infix content_type "<result><error>Invalid content type: '").
  - intros search_type limit Hbad. eexists. split; [| split].
    + unfold search. rewrite bind_run, Hclient. unfold try_except, search_try.
      rewrite bool_decide_eq_false_2 by exact Hbad. cbn [negb]. rewrite ret_run. reflexivity.
    + unfold error_payload. rewrite ?append_assoc. reflexivity.
    + apply (contains_infix search_type "<result><error>Invalid search type: '").
  - intros action Hbad. eexists. split; [| split].
    + unfold control_playback. rewrite bind_run, Hclient.
      unfold try_except, control_playback_try.
      rewrite !bool_decide_eq_false_2 by (intros ->; apply Hbad; set_solver).
      rewrite ret_run. reflexivity.
    + reflexivity.
    + apply (contains_infix action "<result><error>Invalid action: ").
  - exact (get_spotify_client_makes_no_action _ _ _ Hclient).
Qed.


(** *** Escaping *)

Lemma bind_ok {A B} (m : M A) (f : A -> M B) w b w' :
  (m ≫= f) w = (Ok b, w') -> ∃ a w0, m w = (Ok a, w0) ∧ f a w0 = (Ok b, w').
Proof. rewrite bind_run. destruct (m w) as [[a | e] w0]; [eauto | discriminate]. Qed.

Lemma lift_ok {A} (r : res A) w a w' : lift r w = (Ok a, w') -> r = Ok a ∧ w' = w.
Proof. unfold lift. by intros [= -> ->]. Qed.

Lemma perform_ok o args w v w' :
  perform P o args w = (Ok v, w') -> respond P (calls w) (o, args) = Ok v.
Proof. unfold perform. by intros [= -> _]. Qed.

Lemma method_escape_ok v s : method_escape P v = Ok s -> ∃ t, v = PStr t ∧ s = escape t.
Proof. destruct v; try discriminate. intros [= <-]. eauto. Qed.

Ltac bind_inv H :=
  let a := fresh "v" in let w := fresh "w" in let E := fresh "E" in
  apply bind_ok in H as (a & w & E & H).

Ltac lift_inv H := apply lift_ok in H as [H ->].

Lemma email_entry_ok service message w text w' :
  email_entry P service message w = (Ok text, w') ->
  ∃ id msg, subscript P message (PStr "id") = Ok id ∧
    respond P (calls w) (messages_get, [service; PStr "me"; id]) = Ok msg ∧
    entry_of P message msg text.
Proof.
  unfold email_entry. intros H.
  bind_inv H. lift_inv E. bind_inv H. apply perform_ok in E0.
  bind_inv H. lift_inv E1. bind_inv H. lift_inv E2. bind_inv H. lift_inv E3.
  bind_inv H. lift_inv E4. bind_inv H. lift_inv E5. bind_inv H. lift_inv E6.
  bind_inv H. lift_inv E7. apply method_escape_ok in E7 as (snippet & -> & ->).
  injection H as <- <-.
  exists v, v0. split; [exact E |]. split; [exact E0 |].
  exists v1, v2, v3, v4, v5, snippet. by repeat split.
Qed.

Lemma for_each_ok {A B} (f : A -> M B) l w ys w' :
  for_each f l w = (Ok ys, w') ->
  Forall2 (fun x y => ∃ w0 w1, f x w0 = (Ok y, w1)) l ys.
Proof.
  revert w ys w'. induction l as [| x l IH]; intros w ys w' H.
  - injection H as <- <-. constructor.
  - cbn [for_each] in H. bind_inv H. bind_inv H. injection H as <- <-.
    constructor; eauto.
Qed.

Lemma entries_ok service items w entries w' :
  for_each (email_entry P service) items w = (Ok entries, w') ->
  Forall2 (retrieved_entry P service) items entries.
Proof.
  intros H. apply for_each_ok in H. eapply Forall2_impl; [exact H |].
  intros message text (w0 & w1 & Hrun).
  apply email_entry_ok in Hrun as (id & msg & Hid & Hmsg & Hentry).
  by exists (calls w0), id, msg.
Qed.

Lemma read_emails_escapes cv unread number_of_emails date_filter w r w' :
  read_emails P cv unread number_of_emails date_filter w = (Ok r, w') ->
  (∃ text, r = error_payload text)
  ∨ r = "<result><message>No " +:+ (if unread then "unread " else "")
        +:+ "emails found.</message></result>"
  ∨ ∃ service items entries,
      listed P service (read_query unread date_filter) number_of_emails items ∧
      Forall2 (retrieved_entry P service) items entries ∧
      r = "<result>" +:+ nl +:+ join nl entries +:+ nl +:+ "</result>".
Proof.
  unfold read_emails. intros H. bind_inv H. destruct v as [service other].
  unfold try_except in H.
  destruct (read_emails_try P service unread number_of_emails date_filter w0)
    as [[r0 | e] w1] eqn:Htry.
  - injection H as <- <-. right. unfold read_emails_try in Htry.
    bind_inv Htry. bind_inv Htry. lift_inv E1.
    destruct (negb (truthy v0)).
    + injection Htry as <- <-. by left.
    + bind_inv Htry. lift_inv E2. bind_inv Htry. injection Htry as <- <-.
      right. exists service, v1, v2. split; [| split; [| reflexivity]].
      * exists (calls w0), v, v0. split; [| by split]. eapply perform_ok, E0.
      * eapply entries_ok, E3.
  - injection H as <- <-. left. exists ("Error reading emails: " +:+ exn_str e).
    unfold error_payload. rewrite ?append_assoc. reflexivity.
Qed.

Lemma search_for_emails_escapes cv query max_results date_filter w r w' :
  search_for_emails P cv query max_results date_filter w = (Ok r, w') ->
  (∃ text, r = error_payload text)
  ∨ r = "<result><message>No emails found matching the query: '" +:+ query
        +:+ "'</message></result>"
  ∨ ∃ service items entries,
      listed P service query max_results items ∧
      Forall2 (retrieved_entry P service) items entries ∧
      r = "<result>" +:+ nl +:+ join "" entries +:+ nl +:+ "</result>".
Proof.
  unfold search_for_emails. intros H. bind_inv H. destruct v as [service other].
  unfold try_except in H.
  destruct (search_for_emails_try P service query max_results date_filter w0)
    as [[r0 | e] w1] eqn:Htry.
  - injection H as <- <-. right. unfold search_for_emails_try in Htry.
    bind_inv Htry. bind_inv Htry. lift_inv E1.
    destruct (negb (truthy v0)).
    + injection Htry as <- <-. by left.
    + bind_inv Htry. lift_inv E2. bind_inv Htry. injection Htry as <- <-.
      right. exists service, v1, v2. split; [| split; [| reflexivity]].
      * exists (calls w0), v, v0. split; [| by split]. eapply perform_ok, E0.
      * eapply entries_ok, E3.
  - injection H as <- <-. left. exists ("Error searching emails: " +:+ exn_str e).
    unfold error_payload. rewrite ?append_assoc. reflexivity.
Qed.

Lemma get_email_by_id_escapes cv email_id w r w' :
  get_email_by_id P cv email_id w = (Ok r, w') ->
  (∃ text, r = error_payload text)
  ∨ ∃ service history msg payload headers subject sender date body,
      respond P history (messages_get, [service; PStr "me"; PStr email_id]) = Ok msg ∧
      subscript P msg (PStr "payload") = Ok payload ∧
      subscript P payload (PStr "headers") = Ok headers ∧
      header_value P "subject" "No subject" headers = Ok subject ∧
      header_value P "from" "Unknown sender" headers = Ok sender ∧
      header_value P "date" "Unknown date" headers = Ok date ∧
      message_body P payload = Ok body ∧
      r = "<result>" +:+ nl +:+ "<email>
  <id>" +:+ email_id +:+ "</id>
  <from>" +:+ fmt P sender +:+ "</from>
  <subject>" +:+ fmt P subject +:+ "</subject>
  <date>" +:+ fmt P date +:+ "</date>
  <body>" +:+ escape body +:+ "</body>
</email>" +:+ nl +:+ "</result>".
Proof.
  unfold get_email_by_id. intros H. bind_inv H. destruct v as [service other].
  unfold try_except in H.
  destruct (get_email_by_id_try P service email_id w0) as [[r0 | e] w1] eqn:Htry.
  - injection H as <- <-. right. unfold get_email_by_id_try in Htry.
    bind_inv Htry. bind_inv Htry. lift_inv E1. bind_inv Htry. lift_inv E2.
    bind_inv Htry. lift_inv E3. bind_inv Htry. lift_inv E4. bind_inv Htry. lift_inv E5.
    bind_inv Htry. lift_inv E6. injection Htry as <- <-.
    exists service, (calls w0), v, v0, v1, v2, v3, v4, v5.
    repeat split; try assumption; [eapply perform_ok, E0 |].
    rewrite ?append_assoc. reflexivity.
  - injection H as <- <-. left.
    exists ("Error retrieving email with ID " +:+ email_id +:+ ": " +:+ exn_str e).
    unfold error_payload. rewrite ?append_assoc. reflexivity.
Qed.


(** C10: what read_emails, search_for_emails and get_email_by_id return is an
    error payload, a no-emails notice, or the listing of the messages
    retrieved, and in a listing every snippet (every body, for
    get_email_by_id) is embedded as [escape] makes it: '&', '<' and '>'
    replaced by '&amp;', '&lt;' and '&gt;', which leaves no angle bracket
    in it; id, sender, subject and date are embedded as they are. *)
Theorem retrieved_text_is_escaped :
  (∀ s, escape s = replace ">" "&gt;" (replace "<" "&lt;" (replace "&" "&amp;" s)) ∧
        contains "<" (escape s) = false ∧ contains ">" (escape s) = false) ∧
  (∀ cv unread number_of_emails date_filter w r w',
     read_emails P cv unread number_of_emails date_filter w = (Ok r, w') ->
     (∃ text, r = error_payload text)
     ∨ r = "<result><message>No " +:+ (if unread then "unread " else "")
           +:+ "emails found.</message></result>"
     ∨ ∃ service items entries,
         listed P service (read_query unread date_filter) number_of_emails items ∧
         Forall2 (retrieved_entry P service) items entries ∧
         r = "<result>" +:+ nl +:+ join nl entries +:+ nl +:+ "</result>") ∧
  (∀ cv query max_results date_filter w r w',
     search_for_emails P cv query max_results date_filter w = (Ok r, w') ->
     (∃ text, r = error_payload text)
     ∨ r = "<result><message>No emails found matching the query: '" +:+ query
           +:+ "'</message></result>"
     ∨ ∃ service items entries,
         listed P service query max_results items ∧
         Forall2 (retrieved_entry P service) items entries ∧
         r = "<result>" +:+ nl +:+ join "" entries +:+ nl +:+ "</result>") ∧
  (∀ cv email_id w r w',
     get_email_by_id P cv email_id w = (Ok r, w') ->
     (∃ text, r = error_payload text)
     ∨ ∃ service history msg payload headers subject sender date body,
         respond P history (messages_get, [service; PStr "me"; PStr email_id]) = Ok msg ∧
         subscript P msg (PStr "payload") = Ok payload ∧
         subscript P payload (PStr "headers") = Ok headers ∧
         header_value P "subject" "No subject" headers = Ok subject ∧
         header_value P "from" "Unknown sender" headers = Ok sender ∧
         header_value P "date" "Unknown date" headers = Ok date ∧
         message_body P payload = Ok body ∧
         r = "<result>" +:+ nl +:+ "<email>
  <id>" +:+ email_id +:+ "</id>
  <from>" +:+ fmt P sender +:+ "</from>
  <subject>" +:+ fmt P subject +:+ "</subject>
  <date>" +:+ fmt P date +:+ "</date>
  <body>" +:+ escape body +:+ "</body>
</email>" +:+ nl +:+ "</result>").
Proof.
  split; [| split; [| split]].
  - intros s. split; [reflexivity | apply escape_has_no_angle].
  - apply read_emails_escapes.
  - apply search_for_emails_escapes.
  - apply get_email_by_id_escapes.
Qed.

End Capability_facts.

(** C1, as stated, fails: with no token.json and no credentials.json,
    authenticate_gmail raises FileNotFoundError before read_emails enters its
    [try], and the exception leaves read_emails. *)
Lemma read_emails_raises_when_signed_out :
  let run := Capabilities.invoke Capabilities.signed_out
               (Capabilities.call_read_emails ∅ true 30 None) Py.fresh in
  fst run = Py.Raise (Py.Exn (Py.OtherError "FileNotFoundError")
                        "[Errno 2] No such file or directory: 'credentials.json'") ∧
  ¬ ∃ payload, fst run = Py.Ok payload.
Proof.
  cbn zeta. split; [by vm_compute |]. intros [payload H]. by vm_compute in H.
Qed.

(** C9, as stated, fails: when the Spotify token cannot be had,
    get_spotify_client raises, and play with the content type "video"
    raises with it instead of returning the error payload. *)
Lemma play_raises_when_signed_out :
  let run := Spotify.play Capabilities.signed_out ∅ "Imagine" "video" Py.fresh in
("video" ∉ Spotify.play_valid_types) ∧
  fst run = Py.Raise (Py.Exn (Py.OtherError "SpotifyOauthError") "error: invalid_grant") ∧
  ¬ ∃ payload, fst run = Py.Ok payload.
Proof.
  cbn zeta. split; [| split].
  - apply (bool_decide_unpack _). by vm_compute.
  - by vm_compute.
  - intros [payload H]. by vm_compute in H.
Qed.

Section Runs.
Import Py Common Gmail Spotify Capabilities.

(** get_email_by_id, signed in, on an empty mailbox. *)
Lemma caught_after_client_witness :
  let P := signed_in [] in
  let i := call_get_email_by_id ∅ "abc123" in
  let w1 := mkWorld [(os_path_exists, [PStr "token.json"]);
                     (Credentials_from_authorized_user_file, [PStr "token.json"; SCOPES]);
                     (build, [PStr "gmail"; PStr "v1"; a_client]);
                     (build, [PStr "calendar"; PStr "v3"; a_client])] None in
  client_of P i fresh = (Ok a_client, w1) ∧
  ∃ s w2, invoke P i fresh = (Ok s, w2) ∧
    (∀ e w', try_block P i a_client w1 = (Raise e, w') ->
       s = error_payload (error_prefix i +:+ exn_str e) ∧ w2 = w') ∧
    (∀ r w', try_block P i a_client w1 = (Ok r, w') -> s = r ∧ w2 = w').
Proof.
  cbn zeta. split; [reflexivity |].
  apply caught_after_client. reflexivity.
Defined.

(** The scenario of the claim: the id "abc123" and a mailbox without it. *)
Lemma get_email_by_id_reports_not_found_witness :
  let P := signed_in [] in
  let e := Exn (OtherError "HttpError") "<HttpError 404 Requested entity was not found.>" in
  let w1 := mkWorld [(os_path_exists, [PStr "token.json"]);
                     (Credentials_from_authorized_user_file, [PStr "token.json"; SCOPES]);
                     (build, [PStr "gmail"; PStr "v1"; a_client]);
                     (build, [PStr "calendar"; PStr "v3"; a_client])] None in
  authenticate_gmail P fresh = (Ok (a_client, a_client), w1) ∧
  respond P (calls w1) (messages_get, [a_client; PStr "me"; PStr "abc123"]) = Raise e ∧
  ∃ payload w2,
    get_email_by_id P ∅ "abc123" fresh = (Ok payload, w2) ∧
    payload = error_payload ("Error retrieving email with ID " +:+ "abc123" +:+ ": "
                             +:+ exn_str e) ∧
    contains "abc123" payload = true.
Proof.
  intros P e w1. split; [reflexivity |]. split; [reflexivity |].
  apply (get_email_by_id_reports_not_found P ∅ "abc123" fresh a_client a_client w1 e);
    reflexivity.
Defined.

(** Signed in to Spotify, with a cached token that is still valid. *)
Lemma invalid_spotify_arguments_are_rejected_witness :
  let P := signed_in [] in
  let w1 := mkWorld [(SpotifyOAuth, [PNone; PNone; PNone; PStr scope; PBool false]);
                     (get_cached_token, [a_client]);
                     (validate_token, [a_client; PNone]);
                     (Spotify, [a_client])] (Some a_client) in
  get_spotify_client P fresh = (Ok a_client, w1) ∧
("video" ∉ play_valid_types) ∧
  ∃ payload,
    play P ∅ "Imagine" "video" fresh = (Ok payload, w1) ∧
    payload = error_payload ("Invalid content type: '" +:+ "video"
                             +:+ "'. Valid types are: "
                             +:+ join ", " (set_iteration P play_valid_types)) ∧
    contains "video" payload = true.
Proof.
  cbn zeta. split; [reflexivity |].
  assert (Hbad : "video" ∉ play_valid_types) by (apply (bool_decide_unpack _); by vm_compute).
  split; [exact Hbad |].
  apply (invalid_spotify_arguments_are_rejected (signed_in []) ∅ "Imagine" fresh a_client);
    [reflexivity | exact Hbad].
Defined.

(** A mailbox with one message whose subject and snippet have markup. *)
Lemma retrieved_text_is_escaped_witness :
  let P := signed_in [("m1", a_message "<b>Hi</b>" "Ann <ann@example.com>" "1 < 2 & 3 > 2")] in
  let r := "<result>" +:+ nl
           +:+ "<email><id>m1</id><from>Ann <ann@example.com></from><subject><b>Hi</b></subject><snippet>1 &lt; 2 &amp; 3 &gt; 2</snippet></email>"
           +:+ nl +:+ "</result>" in
  fst (read_emails P ∅ false 30 None fresh) = Ok r ∧
  ((∃ text, r = error_payload text)
   ∨ r = "<result><message>No " +:+ "" +:+ "emails found.</message></result>"
   ∨ ∃ service items entries,
       listed P service (read_query false None) 30 items ∧
       Forall2 (retrieved_entry P service) items entries ∧
       r = "<result>" +:+ nl +:+ join nl entries +:+ nl +:+ "</result>").
Proof.
  cbn zeta. split; [by vm_compute |].
  eapply (proj1 (proj2 (retrieved_text_is_escaped _)) ∅ false 30%Z None fresh).
  by vm_compute.
Defined.

End Runs.

(** ** More on the string helpers *)

Section Text_facts.
Import Py Text.

Lemma append_nil_r (s : string) : s +:+ "" = s.
Proof. induction s as [| x s IH]; [reflexivity |]. by rewrite append_cons, IH. Qed.

Lemma replace_append old new (a b : string) :
  replace old new (a +:+ b) = replace old new a +:+ replace old new b.
Proof.
  induction a as [| x a IH]; [reflexivity |].
  rewrite append_cons. cbn [replace]. destruct (bool_decide (x = old)).
  - by rewrite IH, append_assoc.
  - by rewrite IH, append_cons.
Qed.

Lemma escape_cons c s : escape (String c s) = escape_char c +:+ escape s.
Proof.
  unfold escape, escape_char.
  change (String c s) with (String c "" +:+ s).
  rewrite !replace_append. f_equal.
  destruct (decide (c = "&"%char)) as [-> | Hamp]; [reflexivity |].
  destruct (decide (c = "<"%char)) as [-> | Hlt]; [reflexivity |].
  destruct (decide (c = ">"%char)) as [-> | Hgt]; [reflexivity |].
  rewrite !(bool_decide_eq_false_2 (c = _)) by assumption.
  cbn [replace]. rewrite (bool_decide_eq_false_2 _ Hamp). cbn [replace].
  rewrite (bool_decide_eq_false_2 _ Hlt). cbn [replace].
  by rewrite (bool_decide_eq_false_2 _ Hgt).
Qed.

(** [escape] is one pass over the text: the three replacements in a row do
    not touch what an earlier one has written. *)
Theorem escape_is_one_pass s :
  escape s = fold_right (fun c rest => escape_char c +:+ rest) "" (list_ascii_of_string s).
Proof.
  induction s as [| c s IH]; [reflexivity |].
  rewrite escape_cons, IH. reflexivity.
Qed.

Lemma escape_char_cases c :
  (c = "&"%char ∧ escape_char c = "&amp;") ∨ (c = "<"%char ∧ escape_char c = "&lt;")
  ∨ (c = ">"%char ∧ escape_char c = "&gt;")
  ∨ (c ≠ "&"%char ∧ c ≠ "<"%char ∧ c ≠ ">"%char ∧ escape_char c = String c "").
Proof.
  unfold escape_char. repeat case_bool_decide; subst; auto 10.
Qed.

(** Escaping loses nothing: two texts have the same escaped form only when
    they are the same text. *)
Theorem escape_injective s1 s2 : escape s1 = escape s2 <-> s1 = s2.
Proof.
  split; [| by intros ->].
  revert s2. induction s1 as [| c1 s1 IH]; intros [| c2 s2].
  - reflexivity.
  - rewrite escape_cons. destruct (escape_char_cases c2) as [[_ ->] | [[_ ->] | [[_ ->] | (_ & _ & _ & ->)]]];
      discriminate.
  - rewrite escape_cons. destruct (escape_char_cases c1) as [[_ ->] | [[_ ->] | [[_ ->] | (_ & _ & _ & ->)]]];
      discriminate.
  - rewrite !escape_cons.
    destruct (escape_char_cases c1) as [[-> ->] | [[-> ->] | [[-> ->] | (Ha1 & Hl1 & Hg1 & ->)]]];
    destruct (escape_char_cases c2) as [[-> ->] | [[-> ->] | [[-> ->] | (Ha2 & Hl2 & Hg2 & ->)]]];
      rewrite ?append_cons; intros H; injection H; clear H; intros; subst;
      try congruence; f_equal; apply IH; assumption.
Qed.

Lemma length_append (a b : string) :
  String.length (a +:+ b) = String.length a + String.length b.
Proof.
  induction a as [| x a IH]; [reflexivity |].
  rewrite append_cons. cbn. by rewrite IH.
Qed.

(** Escaping never shortens a text. *)
Lemma escape_length s : String.length s <= String.length (escape s).
Proof.
  induction s as [| c s IH]; [reflexivity |].
  rewrite escape_cons, length_append.
  destruct (escape_char_cases c) as [[_ ->] | [[_ ->] | [[_ ->] | (_ & _ & _ & ->)]]];
    cbn; lia.
Qed.

(** Text without '&', '<' and '>' is embedded as it is, and only such text. *)
Theorem escape_plain s :
  escape s = s <->
  contains "&" s = false ∧ contains "<" s = false ∧ contains ">" s = false.
Proof.
  split.
  - intros H. destruct (escape_has_no_angle s) as [Hlt Hgt]. rewrite H in Hlt, Hgt.
    split; [| by split]. clear Hlt Hgt. revert H.
    induction s as [| c s IH]; [reflexivity |].
    rewrite escape_cons, contains_char_cons.
    destruct (escape_char_cases c) as [[-> ->] | [[-> ->] | [[-> ->] | (Ha & _ & _ & ->)]]];
      rewrite ?append_cons; intros H; try discriminate H.
    + exfalso. injection H as H. apply (f_equal String.length) in H.
      change ("" +:+ escape s) with (escape s) in H.
      pose proof (escape_length s) as Hle. cbn [String.length] in H. lia.
    + injection H as H. rewrite (IH H). by rewrite bool_decide_eq_false_2 by congruence.
  - intros (Ha & Hl & Hg). induction s as [| c s IH]; [reflexivity |].
    rewrite contains_char_cons in Ha, Hl, Hg.
    apply orb_false_elim in Ha as [Ha Ha'], Hl as [Hl Hl'], Hg as [Hg Hg'].
    rewrite escape_cons, (IH Ha' Hl' Hg'). unfold escape_char.
    by rewrite !(bool_decide_eq_false_2 (c = _)) by (intros ->; by vm_compute in Ha, Hl, Hg).
Qed.

Lemma rev_app_append (a b : string) : String.rev_app a b = String.rev_app a "" +:+ b.
Proof.
  revert b. induction a as [| x a IH]; intros b; [reflexivity |].
  cbn [String.rev_app]. rewrite IH, (IH (String x "")), append_assoc. reflexivity.
Qed.

Lemma rev_cons c (s : string) : String.rev (String c s) = String.rev s +:+ String c "".
Proof. unfold String.rev. cbn [String.rev_app]. apply rev_app_append. Qed.

Lemma split_go_nonempty sep cur s : split_go sep cur s ≠ [].
Proof.
  revert cur. induction s as [| c s IH]; intros cur; cbn [split_go]; [done |].
  destruct (bool_decide (c = sep)); [done | apply IH].
Qed.

Lemma join_cons sep x l : l ≠ [] -> join sep (x :: l) = x +:+ sep +:+ join sep l.
Proof. destruct l; [done | reflexivity]. Qed.

Lemma split_go_join sep cur s :
  join (String sep "") (split_go sep cur s) = String.rev cur +:+ s.
Proof.
  revert cur. induction s as [| c s IH]; intros cur; cbn [split_go].
  - cbn [join]. by rewrite append_nil_r.
  - case_bool_decide as Hc.
    + subst c. rewrite join_cons by apply split_go_nonempty. by rewrite IH.
    + rewrite IH, rev_cons, append_assoc. reflexivity.
Qed.

Lemma split_go_pieces sep cur s :
  contains (String sep "") (String.rev cur) = false ->
  Forall (fun piece => contains (String sep "") piece = false) (split_go sep cur s).
Proof.
  revert cur. induction s as [| c s IH]; intros cur Hcur; cbn [split_go].
  - by constructor.
  - case_bool_decide as Hc.
    + constructor; [exact Hcur | by apply IH].
    + apply IH. rewrite rev_cons, contains_char_append, Hcur, contains_char_cons.
      by rewrite bool_decide_eq_false_2 by congruence.
Qed.

(** [sep.join(s.split(sep)) == s]: splitting drops nothing but the
    separators, and no piece has a separator left in it. *)
Lemma split_join_round_trip sep s :
  join (String sep "") (split sep s) = s ∧
  Forall (fun piece => contains (String sep "") piece = false) (split sep s).
Proof.
  unfold split. split; [apply split_go_join | by apply split_go_pieces].
Qed.

End Text_facts.

(** ** More on gmail.py *)

Section Gmail_facts.
Import Py Common Gmail Text.
Context (P : platform).

Lemma first_header_skips name fallback before rest :
  Forall (other_header P name) before ->
  first_header P name fallback (before ++ rest) = first_header P name fallback rest.
Proof.
  induction 1 as [| h before (n & Hn & Hne) _ IH]; [reflexivity |].
  cbn [app first_header]. rewrite Hn. cbn. by rewrite bool_decide_eq_false_2.
Qed.

(** A message without the header gets the fallback text. *)
Theorem header_value_absent name fallback headers :
  Forall (other_header P name) headers ->
  header_value P name fallback (PList headers) = Ok (PStr fallback).
Proof.
  intros H. unfold header_value. cbn.
  rewrite <- (app_nil_r headers). by rewrite first_header_skips.
Qed.

(** The first header whose name is [name] in any mix of upper and lower case
    decides: its value is taken (or its missing value raised), and the
    headers after it are not looked at. *)
Theorem header_value_first_match name fallback before h n after :
  Forall (other_header P name) before ->
  subscript P h (PStr "name") = Ok (PStr n) ->
  lower n = name ->
  header_value P name fallback (PList (before ++ h :: after))
  = subscript P h (PStr "value").
Proof.
  intros Hbefore Hn Hlow. unfold header_value. cbn.
  rewrite first_header_skips by exact Hbefore.
  cbn [first_header]. rewrite Hn. cbn. by rewrite bool_decide_eq_true_2.
Qed.

Lemma first_plain_part_none parts :
  Forall (fun part => ∃ d, part = PDict d ∧ assoc "mimeType" d ≠ Some (PStr "text/plain")) parts ->
  first_plain_part P parts = Ok None.
Proof.
  induction 1 as [| part parts (d & -> & Hd) _ IH]; [reflexivity |].
  cbn [first_plain_part get]. cbn.
  assert (Hne : eq_str (default PNone (assoc "mimeType" d)) "text/plain" = false).
  { destruct (assoc "mimeType" d) as [[] |]; try reflexivity.
    cbn. apply bool_decide_eq_false_2. congruence. }
  by rewrite Hne.
Qed.

(** A multipart message with no text/plain part has the body "No content",
    whatever its other parts and its own body hold. *)
Theorem message_body_without_plain_text payload parts :
  assoc "parts" payload = Some (PList parts) ->
  Forall (fun part => ∃ d, part = PDict d ∧ assoc "mimeType" d ≠ Some (PStr "text/plain")) parts ->
  message_body P (PDict payload) = Ok "No content".
Proof.
  intros Hparts Hnone. unfold message_body. cbn.
  rewrite Hparts. cbn. by rewrite (first_plain_part_none _ Hnone).
Qed.

(** An empty mailbox: when the service lists nothing, read_emails and
    search_for_emails return their notice after that one call; no message
    is fetched. *)
Theorem empty_listing_is_a_notice cv w service other w1 :
  authenticate_gmail P w = (Ok (service, other), w1) ->
  (∀ unread number_of_emails date_filter results messages,
     respond P (calls w1)
       (messages_list, [service; PStr "me"; PStr (read_query unread date_filter);
                        PInt number_of_emails]) = Ok results ->
     get P results "messages" (PList []) = Ok messages -> truthy messages = false ->
     read_emails P cv unread number_of_emails date_filter w
     = (Ok ("<result><message>No " +:+ (if unread then "unread " else "")
            +:+ "emails found.</message></result>"),
        mkWorld (calls w1 ++ [(messages_list,
                               [service; PStr "me"; PStr (read_query unread date_filter);
                                PInt number_of_emails])])
                (spotify_client_cache w1))) ∧
  (∀ query max_results date_filter results messages,
     respond P (calls w1)
       (messages_list, [service; PStr "me"; PStr query; PInt max_results]) = Ok results ->
     get P results "messages" (PList []) = Ok messages -> truthy messages = false ->
     search_for_emails P cv query max_results date_filter w
     = (Ok ("<result><message>No emails found matching the query: '" +:+ query
            +:+ "'</message></result>"),
        mkWorld (calls w1 ++ [(messages_list,
                               [service; PStr "me"; PStr query; PInt max_results])])
                (spotify_client_cache w1))).
Proof.
  intros Hauth. split.
  - intros unread n f results messages Hlist Hget Hempty.
    unfold read_emails. rewrite bind_run, Hauth. unfold try_except, read_emails_try.
    rewrite bind_run. unfold perform at 1. rewrite Hlist.
    rewrite bind_run. unfold lift at 1. rewrite Hget, Hempty. reflexivity.
  - intros query n f results messages Hlist Hget Hempty.
    unfold search_for_emails. rewrite bind_run, Hauth. unfold try_except, search_for_emails_try.
    rewrite bind_run. unfold perform at 1. rewrite Hlist.
    rewrite bind_run. unfold lift at 1. rewrite Hget, Hempty. reflexivity.
Qed.

End Gmail_facts.

(** ** What the capability functions change at the services *)

Section Effect_logic.
Import Py Common Gmail Calendar X Spotify Capabilities Effects.
Context (P : platform).

Lemma write_count_app a b : write_count (a ++ b) = write_count a + write_count b.
Proof. unfold write_count. by rewrite List.filter_app, length_app. Qed.

Lemma writes_ret {A} (a : A) : writes_at_most 0 (mret a).
Proof. intros w r w' [= <- <-]. exists []. by rewrite app_nil_r. Qed.

Lemma writes_raise {A} e : writes_at_most 0 (@raise A e).
Proof. intros w r w' [= <- <-]. exists []. by rewrite app_nil_r. Qed.

Lemma writes_lift {A} (x : res A) : writes_at_most 0 (lift x).
Proof. intros w r w' [= <- <-]. exists []. by rewrite app_nil_r. Qed.

Lemma writes_perform o args :
  writes_at_most (if service_write (o, args) then 1 else 0) (perform P o args).
Proof.
  intros w r w' [= <- <-]. exists [(o, args)]. split; [reflexivity |].
  unfold write_count. cbn. by destruct (service_write (o, args)).
Qed.

Lemma writes_perform_read o args :
  service_write (o, args) = false -> writes_at_most 0 (perform P o args).
Proof. intros H. pose proof (writes_perform o args) as Hw. by rewrite H in Hw. Qed.

Lemma writes_perform_one o args : writes_at_most 1 (perform P o args).
Proof.
  pose proof (writes_perform o args) as Hw.
  destruct (service_write (o, args)); [exact Hw |].
  intros w r w' Hrun. destruct (Hw _ _ _ Hrun) as (new & Hnew & Hle). eauto.
Qed.

Lemma writes_weaken {A} j k (m : M A) : j <= k -> writes_at_most j m -> writes_at_most k m.
Proof.
  intros Hjk Hm w r w' Hrun. destruct (Hm _ _ _ Hrun) as (new & Hnew & Hle).
  exists new. split; [exact Hnew | lia].
Qed.

Lemma writes_bind {A B} j k (m : M A) (f : A -> M B) :
  writes_at_most j m -> (∀ a, writes_at_most k (f a)) -> writes_at_most (j + k) (m ≫= f).
Proof.
  intros Hm Hf w r w'. rewrite bind_run.
  destruct (m w) as [[a | e] w0] eqn:E; destruct (Hm _ _ _ E) as (new0 & H0 & Hle0).
  - intros Hrun. destruct (Hf a _ _ _ Hrun) as (new1 & H1 & Hle1).
    exists (new0 ++ new1). rewrite H1, H0, app_assoc, write_count_app.
    split; [reflexivity | lia].
  - intros [= <- <-]. exists new0. split; [exact H0 | lia].
Qed.

Lemma writes_try {A} j k (m : M A) (h : exn -> M A) :
  writes_at_most j m -> (∀ e, writes_at_most k (h e)) -> writes_at_most (j + k) (try_except m h).
Proof.
  intros Hm Hh w r w'. unfold try_except.
  destruct (m w) as [[a | e] w0] eqn:E; destruct (Hm _ _ _ E) as (new0 & H0 & Hle0).
  - intros [= <- <-]. exists new0. split; [exact H0 | lia].
  - intros Hrun. destruct (Hh e _ _ _ Hrun) as (new1 & H1 & Hle1).
    exists (new0 ++ new1). rewrite H1, H0, app_assoc, write_count_app.
    split; [reflexivity | lia].
Qed.

Lemma writes_try_ValueError {A} j k (m : M A) (h : exn -> M A) :
  writes_at_most j m -> (∀ e, writes_at_most k (h e)) ->
  writes_at_most (j + k) (try_except_ValueError m h).
Proof.
  intros Hm Hh w r w'. unfold try_except_ValueError.
  destruct (m w) as [[a | [c msg]] w0] eqn:E; destruct (Hm _ _ _ E) as (new0 & H0 & Hle0).
  - intros [= <- <-]. exists new0. split; [exact H0 | lia].
  - destruct c; try (intros [= <- <-]; exists new0; split; [exact H0 | lia]).
    intros Hrun. destruct (Hh _ _ _ _ Hrun) as (new1 & H1 & Hle1).
    exists (new0 ++ new1). rewrite H1, H0, app_assoc, write_count_app.
    split; [reflexivity | lia].
Qed.

Lemma writes_for_each {A B} (f : A -> M B) l :
  (∀ x, writes_at_most 0 (f x)) -> writes_at_most 0 (for_each f l).
Proof.
  intros Hf. induction l as [| x l IH]; [apply writes_ret |].
  cbn [for_each]. apply (writes_bind 0 0); [apply Hf | intros y].
  apply (writes_bind 0 0); [exact IH | intros ys; apply writes_ret].
Qed.

End Effect_logic.

(** Goals [writes_at_most 0 m]: no step of [m] is a write. *)
Ltac no_write :=
  repeat first
    [ apply writes_ret | apply writes_raise | apply writes_lift
    | apply writes_perform_read; reflexivity
    | apply (writes_bind 0 0); [| intros ?]
    | apply (writes_try 0 0); [| intros ?]
    | apply (writes_try_ValueError 0 0); [| intros ?]
    | apply writes_for_each; intros ?
    | progress unfold Gmail.email_entry, Calendar.list_events, Common.manual_authorization
    | case_match ].

(** Goals [writes_at_most 1 m]: reads, then at most one write, then reads. *)
Ltac one_write :=
  repeat first
    [ apply (writes_weaken 0 1); [lia |]; solve [no_write]
    | apply (writes_bind 0 1); [solve [no_write] | intros ?]
    | apply (writes_bind 1 0); [apply writes_perform_one | intros ?];
      solve [no_write]
    | case_match ].

Section Effect_facts.
Import Py Common Gmail Calendar X Spotify Capabilities Effects.
Context (P : platform).

Lemma authenticate_gmail_writes : writes_at_most 0 (authenticate_gmail P).
Proof. unfold authenticate_gmail. no_write. Qed.

Lemma get_spotify_client_writes : writes_at_most 0 (get_spotify_client P).
Proof.
  assert (Hauth : writes_at_most 0 (authenticate_spotify P))
    by (unfold authenticate_spotify; no_write).
  intros w r w'. unfold get_spotify_client.
  destruct (spotify_client_cache w).
  - intros [= <- <-]. exists []. by rewrite app_nil_r.
  - destruct (authenticate_spotify P w) as [[sp | e] w0] eqn:E;
      destruct (Hauth _ _ _ E) as (new & Hnew & Hle); intros [= <- <-]; eauto.
Qed.

(** No capability function changes more than one thing: a call of one makes
    at most one call that sends, creates, deletes, updates, posts or steers
    playback, and read_emails, search_for_emails, get_email_by_id,
    list_upcoming_events, search and get_current_track make none. *)
Theorem capability_writes i :
  writes_at_most (if read_only i then 0 else 1) (invoke P i).
Proof.
  destruct i; cbn [read_only invoke];
    unfold read_emails, search_for_emails, write_email, get_email_by_id,
      list_upcoming_events, create_event, delete_event, update_event,
      send_tweet, play, search, get_current_track, control_playback.
  all: first
    [ apply (writes_bind 0 0); [first [apply authenticate_gmail_writes | apply get_spotify_client_writes] | intros ?]
    | apply (writes_bind 0 1); [first [apply authenticate_gmail_writes | apply get_spotify_client_writes | unfold authenticate_twitter; no_write] | intros ?] ].
  all: try case_match.
  all: first [ apply (writes_try 0 0); [| intros ?; apply writes_ret]
             | apply (writes_try 1 0); [| intros ?; apply writes_ret] ].
  - unfold read_emails_try. no_write.
  - unfold search_for_emails_try. no_write.
  - unfold write_email_try. one_write.
  - unfold get_email_by_id_try. no_write.
  - unfold list_upcoming_events_try. no_write.
  - unfold create_event_try. one_write.
  - unfold delete_event_try. one_write.
  - unfold update_event_try. one_write.
  - unfold send_tweet_try. one_write.
  - unfold play_try. one_write.
  - unfold search_try. no_write.
  - unfold get_current_track_try. no_write.
  - unfold control_playback_try. one_write.
Qed.

End Effect_facts.

(** ** More on common.py *)

Section Common_facts.
Import Py Common Effects.
Context (P : platform).

Lemma perform_run o args w :
  perform P o args w
  = (respond P (calls w) (o, args), mkWorld (calls w ++ [(o, args)]) (spotify_client_cache w)).
Proof. reflexivity. Qed.

Lemma getattr_truthy v name x : getattr P v name = Ok x -> truthy v = true.
Proof. destruct v; try discriminate. reflexivity. Qed.

(** The two [build] calls that end authenticate_gmail, from the world [w]
    with the credentials [creds]: what was called, first build first. *)
Lemma builds_run creds w r w' :
  (service_gmail ← perform P build [PStr "gmail"; PStr "v1"; creds];
   service_calendar ← perform P build [PStr "calendar"; PStr "v3"; creds];
   mret (service_gmail, service_calendar)) w = (r, w') ->
  ∃ rest, calls w' = calls w ++ rest ∧
    (rest = [(build, [PStr "gmail"; PStr "v1"; creds])]
     ∨ rest = [(build, [PStr "gmail"; PStr "v1"; creds]);
               (build, [PStr "calendar"; PStr "v3"; creds])]).
Proof.
  rewrite bind_run, perform_run.
  destruct (respond P (calls w) _) as [g | e].
  - rewrite bind_run, perform_run. cbn [calls spotify_client_cache].
    destruct (respond P _ _) as [c | e]; intros [= <- <-]; cbn [calls];
      rewrite <- app_assoc; eauto.
  - intros [= <- <-]. cbn [calls]. eauto.
Qed.

(** With a token.json that loads into valid credentials, authenticate_gmail
    asks nobody for a code and touches no file: it checks the file, loads
    it, and builds the services with what it loaded. *)
Theorem valid_token_needs_no_prompt w token_exists creds valid r w' :
  respond P (calls w) (os_path_exists, [PStr (token_path P)]) = Ok token_exists ->
  truthy token_exists = true ->
  respond P (calls w ++ [(os_path_exists, [PStr (token_path P)])])
    (Credentials_from_authorized_user_file, [PStr (token_path P); SCOPES]) = Ok creds ->
  getattr P creds "valid" = Ok valid -> truthy valid = true ->
  authenticate_gmail P w = (r, w') ->
  ∃ rest,
    calls w' = calls w ++ [(os_path_exists, [PStr (token_path P)]);
                           (Credentials_from_authorized_user_file, [PStr (token_path P); SCOPES])]
                       ++ rest ∧
    (rest = [(build, [PStr "gmail"; PStr "v1"; creds])]
     ∨ rest = [(build, [PStr "gmail"; PStr "v1"; creds]);
               (build, [PStr "calendar"; PStr "v3"; creds])]).
Proof.
  intros Hexists Hyes Hload Hvalid Hok.
  unfold authenticate_gmail. fold (credentials_path P). fold (token_path P).
  rewrite bind_run, perform_run, Hexists, Hyes.
  rewrite bind_run. unfold try_except_ValueError. rewrite perform_run.
  cbn [calls spotify_client_cache]. rewrite Hload.
  rewrite bind_run, (getattr_truthy _ _ _ Hvalid). cbn [negb].
  rewrite bind_run. unfold lift at 1. rewrite Hvalid, ret_run, Hok. cbn [negb].
  rewrite bind_run, ret_run.
  intros Hrun. apply builds_run in Hrun as (rest & Hcalls & Hrest).
  exists rest. split; [| exact Hrest]. rewrite Hcalls. cbn [calls].
  by rewrite <- !app_assoc.
Qed.

(** Expired credentials with a refresh token are refreshed and used, and the
    refreshed token is not written back: after the refresh call nothing
    follows but the two builds, so the next run finds the expired token.json
    again. *)
Theorem refreshed_token_is_not_saved w token_exists creds valid expired refresh_token r w' :
  respond P (calls w) (os_path_exists, [PStr (token_path P)]) = Ok token_exists ->
  truthy token_exists = true ->
  respond P (calls w ++ [(os_path_exists, [PStr (token_path P)])])
    (Credentials_from_authorized_user_file, [PStr (token_path P); SCOPES]) = Ok creds ->
  getattr P creds "valid" = Ok valid -> truthy valid = false ->
  getattr P creds "expired" = Ok expired -> truthy expired = true ->
  getattr P creds "refresh_token" = Ok refresh_token -> truthy refresh_token = true ->
  authenticate_gmail P w = (r, w') ->
  ∃ rest,
    calls w' = calls w ++ [(os_path_exists, [PStr (token_path P)]);
                           (Credentials_from_authorized_user_file, [PStr (token_path P); SCOPES]);
                           (creds_refresh, [creds])]
                       ++ rest ∧
    (rest = [] ∨ rest = [(build, [PStr "gmail"; PStr "v1"; creds])]
     ∨ rest = [(build, [PStr "gmail"; PStr "v1"; creds]);
               (build, [PStr "calendar"; PStr "v3"; creds])]).
Proof.
  intros Hexists Hyes Hload Hvalid Hno Hexpired Hexp Hrefresh Href.
  unfold authenticate_gmail. fold (credentials_path P). fold (token_path P).
  rewrite bind_run, perform_run, Hexists, Hyes.
  rewrite bind_run. unfold try_except_ValueError. rewrite perform_run.
  cbn [calls spotify_client_cache]. rewrite Hload.
  rewrite bind_run, (getattr_truthy _ _ _ Hvalid). cbn [negb].
  rewrite bind_run. unfold lift at 1. rewrite Hvalid, ret_run, Hno. cbn [negb].
  rewrite bind_run, bind_run, bind_run. unfold lift at 1. rewrite Hexpired, Hexp.
  rewrite bind_run. unfold lift at 1. rewrite Hrefresh, ret_run, Href.
  rewrite bind_run, perform_run. cbn [calls spotify_client_cache].
  destruct (respond P _ (creds_refresh, [creds])) as [x | e].
  - rewrite ret_run. intros Hrun. apply builds_run in Hrun as (rest & Hcalls & Hrest).
    exists rest. split; [| by right]. rewrite Hcalls. cbn [calls].
    by rewrite <- !app_assoc.
  - intros [= <- <-]. exists []. split; [| by left]. cbn [calls].
    by rewrite <- !app_assoc.
Qed.


End Common_facts.

(** ** More on google_calendar.py *)

Ltac bind_in H :=
  let a := fresh "v" in let w := fresh "w" in let E := fresh "E" in
  apply bind_ok in H as (a & w & E & H).

Ltac lift_in H := apply lift_ok in H as [H ->].

Section Calendar_facts.
Import Py Common Gmail Calendar Effects.
Context (P : platform).

(** A start time that is not an ISO date is answered with "Invalid time
    format" before the calendar is asked anything. *)
Theorem invalid_time_is_rejected cv max_results time_min w other service w1 msg :
  authenticate_gmail P w = (Ok (other, service), w1) ->
  time_min ≠ "" ->
  fromisoformat_utc P time_min = Raise (Exn ValueError msg) ->
  list_upcoming_events P cv max_results (Some time_min) w
  = (Ok (error_payload ("Invalid time format: " +:+ msg)), w1).
Proof.
  intros Hauth Hgiven Hparse.
  unfold list_upcoming_events. rewrite bind_run, Hauth.
  unfold try_except, list_upcoming_events_try. cbn [given].
  rewrite bool_decide_eq_false_2 by exact Hgiven. cbn [negb].
  change (default "" (Some time_min)) with time_min. rewrite Hparse. reflexivity.
Qed.

Lemma assoc_set_same key x d : assoc key (assoc_set key x d) = Some x.
Proof.
  induction d as [| [k v] d IH]; cbn [assoc_set assoc].
  - by rewrite bool_decide_eq_true_2.
  - case_bool_decide as Hk; cbn [assoc]; [by rewrite bool_decide_eq_true_2 |].
    by rewrite bool_decide_eq_false_2.
Qed.

Lemma assoc_set_other key x d k : k ≠ key -> assoc k (assoc_set key x d) = assoc k d.
Proof.
  intros Hne. induction d as [| [k0 v] d IH]; cbn [assoc_set assoc].
  - by rewrite bool_decide_eq_false_2 by congruence.
  - case_bool_decide as Hk; cbn [assoc].
    + subst k0. by rewrite !bool_decide_eq_false_2 by congruence.
    + by rewrite IH.
Qed.

(** The attendees argument of create_event and update_event is cut at the
    commas and at nothing else: no address handed to the calendar has a
    comma, none is trimmed or left out (so a blank after a comma stays in
    the address, and an empty piece is an attendee with an empty address),
    and the addresses joined by commas are the argument again. *)
Theorem attendees_are_cut_at_commas attendees :
  ∃ emails,
    attendee_dicts attendees = PList ((fun email => PDict [("email", PStr email)]) <$> emails) ∧
    emails ≠ [] ∧
    join "," emails = attendees ∧
    Forall (fun email => contains "," email = false) emails.
Proof.
  exists (split "," attendees). split; [reflexivity |].
  split; [apply split_go_nonempty |]. apply split_join_round_trip.
Qed.

(** One [if field: event[key] = x] of update_event. *)
Lemma set_if_given o key x d v :
  (if given o then setitem P (PDict d) key x else Ok (PDict d)) = Ok v ->
  ∃ d1, v = PDict d1 ∧
    (∀ k, k ≠ key -> assoc k d1 = assoc k d) ∧
    assoc key d1 = if given o then Some x else assoc key d.
Proof.
  destruct (given o); intros [= <-]; eexists; (split; [reflexivity |]).
  - split; [intros k Hk; by apply assoc_set_other | apply assoc_set_same].
  - by split.
Qed.

(** One [if time: event[outer]['dateTime'] = x] of update_event. *)
Lemma set_dateTime_if_given o outer d v :
  (if given o then set_dateTime P (PDict d) outer (default "" o) else Ok (PDict d)) = Ok v ->
  ∃ d1, v = PDict d1 ∧
    (∀ k, k ≠ outer -> assoc k d1 = assoc k d) ∧
    updated_time o (assoc outer d) (assoc outer d1).
Proof.
  unfold updated_time. destruct (given o).
  - unfold set_dateTime. cbn [subscript].
    destruct (assoc outer d) as [inner |] eqn:Houter; [| discriminate].
    cbn. destruct inner; try discriminate. cbn. intros [= <-].
    eexists. split; [reflexivity |]. split; [intros k Hk; by apply assoc_set_other |].
    eexists _, _. split; [reflexivity |]. split; [apply assoc_set_same |].
    split; [apply assoc_set_same | intros k Hk; by apply assoc_set_other].
  - intros [= <-]. eexists. by repeat split.
Qed.

(** update_event writes back what it fetched with the given fields set and
    nothing else changed: every other key of the event, and every field
    whose argument is missing or empty, goes to the update call as the get
    call returned it. When a step fails before the update, nothing is
    written and the answer is an error payload. *)
Theorem update_event_changes_only_what_is_given
    cv event_id summary start_time end_time description location attendees
    w other service w1 event r w' :
  authenticate_gmail P w = (Ok (other, service), w1) ->
  respond P (calls w1) (events_get, [service; PStr "primary"; PStr event_id])
  = Ok (PDict event) ->
  update_event P cv event_id summary start_time end_time description location attendees w
  = (r, w') ->
  ((∃ text, r = Ok (error_payload text)) ∧
   calls w' = calls w1 ++ [(events_get, [service; PStr "primary"; PStr event_id])])
  ∨ ∃ body,
      calls w' = calls w1 ++ [(events_get, [service; PStr "primary"; PStr event_id]);
                              (events_update,
                               [service; PStr "primary"; PStr event_id; PDict body])] ∧
      (∀ k, k ∉ update_fields -> assoc k body = assoc k event) ∧
      assoc "summary" body
      = (if given summary then Some (PStr (default "" summary)) else assoc "summary" event) ∧
      updated_time start_time (assoc "start" event) (assoc "start" body) ∧
      updated_time end_time (assoc "end" event) (assoc "end" body) ∧
      assoc "description" body
      = (if given description then Some (PStr (default "" description))
         else assoc "description" event) ∧
      assoc "location" body
      = (if given location then Some (PStr (default "" location))
         else assoc "location" event) ∧
      assoc "attendees" body
      = (if given attendees then Some (attendee_dicts (default "" attendees))
         else assoc "attendees" event).
Proof.
  intros Hauth Hget.
  unfold update_event. rewrite bind_run, Hauth. unfold try_except, update_event_try.
  rewrite bind_run, perform_run, Hget. cbn [calls spotify_client_cache].
  assert (Hfail : ∀ (e : exn) (w2 : world),
            calls w2 = calls w1 ++ [(events_get, [service; PStr "primary"; PStr event_id])] ->
            (mret ("<result><error>Error updating event: " +:+ exn_str e
                   +:+ "</error></result>") : M string) w2 = (r, w') ->
            (∃ text, r = Ok (error_payload text)) ∧
            calls w' = calls w1 ++ [(events_get, [service; PStr "primary"; PStr event_id])]).
  { intros e w2 Hw2 [= <- <-]. split; [| exact Hw2].
    exists ("Error updating event: " +:+ exn_str e).
    unfold error_payload. by rewrite ?append_assoc. }
  rewrite bind_run. unfold lift at 1.
  destruct (if given summary then _ else _) as [v1 | e1] eqn:E1;
    [| intros Hrun; left; eapply Hfail; [| exact Hrun]; reflexivity].
  apply set_if_given in E1 as (d1 & -> & Hf1 & Hs1).
  rewrite bind_run. unfold lift at 1.
  destruct (if given start_time then _ else _) as [v2 | e2] eqn:E2;
    [| intros Hrun; left; eapply Hfail; [| exact Hrun]; reflexivity].
  apply set_dateTime_if_given in E2 as (d2 & -> & Hf2 & Hs2).
  rewrite bind_run. unfold lift at 1.
  destruct (if given end_time then _ else _) as [v3 | e3] eqn:E3;
    [| intros Hrun; left; eapply Hfail; [| exact Hrun]; reflexivity].
  apply set_dateTime_if_given in E3 as (d3 & -> & Hf3 & Hs3).
  rewrite bind_run. unfold lift at 1.
  destruct (if given description then _ else _) as [v4 | e4] eqn:E4;
    [| intros Hrun; left; eapply Hfail; [| exact Hrun]; reflexivity].
  apply set_if_given in E4 as (d4 & -> & Hf4 & Hs4).
  rewrite bind_run. unfold lift at 1.
  destruct (if given location then _ else _) as [v5 | e5] eqn:E5;
    [| intros Hrun; left; eapply Hfail; [| exact Hrun]; reflexivity].
  apply set_if_given in E5 as (d5 & -> & Hf5 & Hs5).
  rewrite bind_run. unfold lift at 1.
  destruct (if given attendees then _ else _) as [v6 | e6] eqn:E6;
    [| intros Hrun; left; eapply Hfail; [| exact Hrun]; reflexivity].
  apply set_if_given in E6 as (d6 & -> & Hf6 & Hs6).
  rewrite bind_run, perform_run. cbn [calls spotify_client_cache].
  intros Hrun. right. exists d6. split.
  { destruct (respond P _ (events_update, _)); injection Hrun as <- <-; cbn [calls];
      by rewrite <- !app_assoc. }
  clear Hrun Hfail. unfold update_fields.
  split.
  { intros k Hk. rewrite Hf6, Hf5, Hf4, Hf3, Hf2, Hf1; [reflexivity | ..];
      intros ->; apply Hk; set_solver. }
  split; [by rewrite Hf6, Hf5, Hf4, Hf3, Hf2 |].
  split; [rewrite Hf6, Hf5, Hf4, Hf3 by done; by rewrite <- (Hf1 "start") |].
  split; [rewrite Hf6, Hf5, Hf4 by done; by rewrite <- (Hf1 "end"), <- (Hf2 "end") |].
  split; [rewrite Hf6, Hf5, Hs4 by done; by rewrite Hf3, Hf2, Hf1 |].
  split; [rewrite Hf6, Hs5 by done; by rewrite Hf4, Hf3, Hf2, Hf1 |].
  rewrite Hs6. by rewrite Hf5, Hf4, Hf3, Hf2, Hf1.
Qed.

(** An event that comes back without 'start' cannot be given a start time:
    update_event answers with the KeyError as an error payload and sends no
    update. *)
Theorem update_event_without_start
    cv event_id summary start_time end_time description location attendees
    w other service w1 event :
  authenticate_gmail P w = (Ok (other, service), w1) ->
  respond P (calls w1) (events_get, [service; PStr "primary"; PStr event_id])
  = Ok (PDict event) ->
  assoc "start" event = None ->
  given start_time = true ->
  update_event P cv event_id summary start_time end_time description location attendees w
  = (Ok (error_payload "Error updating event: 'start'"),
     mkWorld (calls w1 ++ [(events_get, [service; PStr "primary"; PStr event_id])])
             (spotify_client_cache w1)).
Proof.
  intros Hauth Hget Hnone Hgiven.
  unfold update_event. rewrite bind_run, Hauth. unfold try_except, update_event_try.
  rewrite bind_run, perform_run, Hget. cbn [calls spotify_client_cache].
  rewrite bind_run. unfold lift at 1.
  destruct (if given summary then _ else _) as [v1 | e1] eqn:E1.
  - apply set_if_given in E1 as (d1 & -> & Hf1 & _).
    rewrite bind_run. unfold lift at 1. rewrite Hgiven.
    unfold set_dateTime. cbn [subscript]. rewrite (Hf1 "start"), Hnone by done.
    reflexivity.
  - destruct (given summary); discriminate E1.
Qed.

End Calendar_facts.

(** ** More on spotify.py *)

Section Spotify_facts.
Import Py Spotify Gmail Effects.
Context (P : platform).

Lemma authenticate_spotify_keeps_cache w r w' :
  authenticate_spotify P w = (r, w') -> spotify_client_cache w' = spotify_client_cache w.
Proof.
  unfold authenticate_spotify, try_except.
  rewrite bind_run, perform_run. cbn [calls spotify_client_cache].
  destruct (respond P _ (SpotifyOAuth, _)) as [auth_manager | e]; [| by intros [= _ <-]].
  rewrite bind_run, perform_run. cbn [calls spotify_client_cache].
  destruct (respond P _ (get_cached_token, _)) as [token | e]; [| by intros [= _ <-]].
  rewrite bind_run, perform_run. cbn [calls spotify_client_cache].
  destruct (respond P _ (validate_token, _)) as [token_info | e]; [| by intros [= _ <-]].
  rewrite bind_run. destruct (negb (truthy token_info)).
  - rewrite bind_run, perform_run. cbn [calls spotify_client_cache].
    destruct (respond P _ (get_authorize_url, _)) as [url | e]; [| by intros [= _ <-]].
    rewrite bind_run, perform_run. cbn [calls spotify_client_cache].
    destruct (respond P _ (input, _)) as [code | e]; [| by intros [= _ <-]].
    rewrite perform_run. cbn [calls spotify_client_cache].
    destruct (respond P _ (get_access_token, _)) as [x | e]; [| by intros [= _ <-]].
    rewrite perform_run. cbn [calls spotify_client_cache].
    destruct (respond P _ (Spotify, _)) as [sp | e]; by intros [= _ <-].
  - rewrite ret_run, perform_run. cbn [calls spotify_client_cache].
    destruct (respond P _ (Spotify, _)) as [sp | e]; by intros [= _ <-].
Qed.

(** [lru_cache]: once get_spotify_client has returned a client, every later
    call returns that client and calls nothing; a call that raises caches
    nothing, so the next call authenticates again. *)
Theorem spotify_client_is_cached w r w1 :
  get_spotify_client P w = (r, w1) ->
  match r with
  | Ok sp => spotify_client_cache w1 = Some sp ∧ get_spotify_client P w1 = (Ok sp, w1)
  | Raise e => spotify_client_cache w = None ∧ spotify_client_cache w1 = None
  end.
Proof.
  unfold get_spotify_client at 1.
  destruct (spotify_client_cache w) as [cached |] eqn:Hcache.
  - intros [= <- <-]. split; [exact Hcache |]. unfold get_spotify_client. by rewrite Hcache.
  - destruct (authenticate_spotify P w) as [[sp | e] w0] eqn:Hauth; intros [= <- <-].
    + split; reflexivity.
    + split; [reflexivity |]. apply authenticate_spotify_keeps_cache in Hauth. congruence.
Qed.

(** When the search finds nothing, play answers "No ... found" and starts
    no playback: the search is its only call. *)
Theorem play_without_match cv query content_type w sp w1 results items :
  get_spotify_client P w = (Ok sp, w1) ->
  content_type ∈ play_valid_types ->
  respond P (calls w1) (sp_search, [sp; PStr query; PStr content_type; PInt 1]) = Ok results ->
  subscript2 P results (content_type +:+ "s") "items" = Ok items ->
  truthy items = false ->
  play P cv query content_type w
  = (Ok (error_payload ("No " +:+ content_type +:+ " found matching: '" +:+ query +:+ "'")),
     mkWorld (calls w1 ++ [(sp_search, [sp; PStr query; PStr content_type; PInt 1])])
             (spotify_client_cache w1)).
Proof.
  intros Hclient Hvalid Hsearch Hitems Hempty.
  unfold play. rewrite bind_run, Hclient. unfold try_except, play_try.
  rewrite bool_decide_eq_true_2 by exact Hvalid. cbn [negb].
  rewrite bind_run, perform_run, Hsearch. cbn [calls spotify_client_cache].
  rewrite bind_run. unfold lift at 1. rewrite Hitems, Hempty. cbn [negb].
  rewrite ret_run. unfold error_payload. by rewrite ?append_assoc.
Qed.

(** play starts the playback before it writes its answer: when the item
    found has a uri but no name, the playback call is made and answered, and
    play still returns an error payload. *)
Theorem play_starts_before_it_answers cv query content_type w sp w1 results items item uri :
  get_spotify_client P w = (Ok sp, w1) ->
  content_type ∈ play_valid_types ->
  respond P (calls w1) (sp_search, [sp; PStr query; PStr content_type; PInt 1]) = Ok results ->
  subscript2 P results (content_type +:+ "s") "items" = Ok items ->
  truthy items = true ->
  subscript P items (PInt 0) = Ok (PDict item) ->
  assoc "uri" item = Some uri -> assoc "name" item = None ->
  (∀ args, ∃ x, respond P (calls w1 ++ [(sp_search,
                                          [sp; PStr query; PStr content_type; PInt 1])])
                  (start_playback, args) = Ok x) ->
  ∃ how,
    play P cv query content_type w
    = (Ok (error_payload ("Error playing " +:+ content_type +:+ ": 'name'")),
       mkWorld (calls w1 ++ [(sp_search, [sp; PStr query; PStr content_type; PInt 1]);
                             (start_playback, [sp; how])])
               (spotify_client_cache w1)).
Proof.
  intros Hclient Hvalid Hsearch Hitems Hsome Hitem Huri Hname Hplay.
  unfold play. rewrite bind_run, Hclient. unfold try_except, play_try.
  rewrite bool_decide_eq_true_2 by exact Hvalid. cbn [negb].
  rewrite bind_run, perform_run, Hsearch. cbn [calls spotify_client_cache].
  rewrite bind_run. unfold lift at 1. rewrite Hitems, Hsome. cbn [negb].
  rewrite bind_run. unfold lift at 1.
  rewrite bind_run. unfold lift at 1. rewrite Hitem.
  unfold play_valid_types in Hvalid.
  repeat (apply elem_of_cons in Hvalid as [-> | Hvalid]); [.. | by apply elem_of_nil in Hvalid].
  all: repeat (case_bool_decide; [try done | try done]).
  all: eexists.
  all: rewrite bind_run; unfold lift at 1; cbn [subscript]; rewrite Huri.
  all: rewrite bind_run, perform_run; cbn [calls spotify_client_cache].
  all: match goal with
       | |- context [respond P ?h (start_playback, ?args)] =>
           destruct (Hplay args) as [x Hx]; rewrite Hx
       end.
  all: rewrite bind_run; unfold lift at 1; cbn [subscript]; rewrite Hname.
  all: rewrite <- !app_assoc; reflexivity.
Qed.

End Spotify_facts.

(** ** More on agents.py *)

Section Agents_facts.
Import Py Instructions Registry Defaults.

(** A prompt depends on the context through the keys of its template only:
    whatever else the context holds, or is given, changes no character. *)
Theorem prompts_ignore_other_keys :
  Forall (fun entry : (string -> Context -> string) * list string =>
            ∀ k, k ∉ snd entry ->
              ∀ now (context_variables : Context) v,
                fst entry now (<[k := v]> context_variables) = fst entry now context_variables)
         templates.
Proof.
  unfold templates.
  repeat (constructor;
    [cbn [fst snd]; intros k Hk now cv v;
     unfold base_assistant_instructions, email_assistant_instructions,
       calendar_assistant_instructions, social_media_assistant_instructions,
       music_assistant_instructions, dict_get;
     rewrite !lookup_insert_ne by (intros ->; apply Hk; set_solver); reflexivity |]).
  constructor.
Qed.

(** What the context has under a key a template reads is in the prompt as it
    is, character for character. *)
Theorem prompts_embed_context_values :
  Forall (fun entry : (string -> Context -> string) * list string =>
            ∀ k, k ∈ snd entry ->
              ∀ now (context_variables : Context) v,
                context_variables !! k = Some v ->
                contains v (fst entry now context_variables) = true)
         templates.
Proof.
  unfold templates.
  repeat (constructor;
    [cbn [fst snd]; intros k Hk now cv v Hv;
     assert (Hget : ∀ fallback, dict_get cv k fallback = v)
       by (intros fallback; unfold dict_get; by rewrite Hv);
     repeat (apply elem_of_cons in Hk as [-> | Hk]); [.. | by apply elem_of_nil in Hk];
     unfold base_assistant_instructions, email_assistant_instructions,
       calendar_assistant_instructions, social_media_assistant_instructions,
       music_assistant_instructions;
     cbv zeta; rewrite !Hget;
     repeat first [apply contains_here | apply contains_append_r] |]).
  constructor.
Qed.

(** With [default_context], the context run.py starts the loop with, no
    template falls back: every prompt is the same at any time it is
    rendered, the base prompt shows the time agents.py was imported, and the
    social-media prompt gives the tweet language of the environment, or
    English. *)
Theorem default_context_fixes_every_prompt getenv imported :
  let context_variables := default_context getenv imported in
  (∀ a now1 now2, a ∈ built getenv ->
     instructions a now1 context_variables = instructions a now2 context_variables) ∧
  (∀ now, contains imported (base_assistant_instructions now context_variables) = true) ∧
  (∀ now, contains ("User Language: "
                    +:+ default "English" (getenv "TWEET_PREFERRED_LANGUAGE"))
            (social_media_assistant_instructions now context_variables) = true).
Proof.
  cbn zeta.
  assert (Hdt : ∀ now, dict_get (default_context getenv imported) "current_datetime" now
                       = imported)
    by (intros now; unfold dict_get, default_context; by simplify_map_eq).
  assert (Hlang : dict_get (default_context getenv imported) "tweet_preferred_language" "Polish"
                  = default "English" (getenv "TWEET_PREFERRED_LANGUAGE"))
    by (unfold dict_get, default_context; by simplify_map_eq).
  split; [| split].
  - intros a now1 now2 Ha. unfold built in Ha.
    repeat (apply elem_of_cons in Ha as [-> | Ha]); [.. | by apply elem_of_nil in Ha];
      cbn [instructions];
      unfold base_assistant_instructions, calendar_assistant_instructions;
      cbv zeta; rewrite ?Hdt; reflexivity.
  - intros now. unfold base_assistant_instructions. cbv zeta. rewrite Hdt.
    repeat first [apply contains_here | apply contains_append_r].
  - intros now. unfold social_media_assistant_instructions. rewrite Hlang.
    set (lang := default "English" (getenv "TWEET_PREFERRED_LANGUAGE")).
    set (name := dict_get _ "user_name" _). set (account := dict_get _ "twitter_username" _).
    change (contains ("User Language: " +:+ lang)
              ("
    You are a social media specialist for " +:+ name +:+ ".
    Twitter Username: " +:+ account +:+ "
    " +:+ ("User Language: " +:+ lang) +:+ "
    
    You can:
    - Send tweets on User's Twitter account with engaging content.
    
    Rules:
    - Always confirm the tweet content with User before posting.
    - IMPORTANT: Do not post before User's approval.
    - Tweet content should be engaging.
    - Use the tweet_preferred_language to determine the language of the tweet.
    ") = true).
    repeat first [apply contains_here | apply contains_append_r].
Qed.

(** Running the module body again replaces nobody in place: the agents that
    existed are still there with the function lists they had, and every
    transfer function now returns an agent of the new run, never one of
    the earlier ones. *)
Theorem rerun_leaves_earlier_agents getenv s :
  ∃ s', agents_module getenv s = Some s' ∧
    (∀ l a, deref l s = Some a -> deref l s' = Some a) ∧
    (∀ f target, transfer_result f s' = Some target ->
       deref target s = None ∧ is_Some (deref target s')).
Proof.
  eexists. split; [apply agents_module_run |]. unfold deref. cbn [heap].
  split.
  - intros l a Hl. rewrite lookup_app_l; [exact Hl | by eapply lookup_lt_Some].
  - destruct (bound_lookup (length (heap s)) (globals s)) as (Hb & He & Hc & Hs & Hm).
    intros f target. unfold transfer_result.
    destruct f; cbn; try discriminate; unfold load_global; cbn [globals];
      rewrite ?Hb, ?He, ?Hc, ?Hs, ?Hm; intros [= <-];
      (split; [apply lookup_ge_None; lia | rewrite lookup_past; cbn; eauto]).
Qed.

(** Every capability function is offered by one agent, once: no two agents
    share a function, and the base agent offers none. *)
Theorem every_capability_has_one_agent getenv :
  ∃ s, agents_module getenv initial = Some s ∧
    ∀ f, is_transfer f = false ->
      sum_list ((fun a => count_occ func_eq_dec (functions a) f) <$> heap s) = 1 ∧
      ∀ base, agent_of "base_agent" s = Some base -> f ∉ functions base.
Proof.
  eexists. split; [apply agents_module_run |].
  destruct (bound_lookup (length (heap initial)) (globals initial)) as (Hb & _).
  intros f Hf. split.
  - cbn [heap initial app]. destruct f; try discriminate Hf; reflexivity.
  - intros base Hbase.
    rewrite (agent_of_run getenv initial 0 "base_agent" _ Hb eq_refl) in Hbase.
    injection Hbase as <-. cbn [functions].
    destruct f; try discriminate Hf; intros Hin;
      repeat (apply elem_of_cons in Hin as [Hin | Hin]; [discriminate Hin |]);
      by apply elem_of_nil in Hin.
Qed.

End Agents_facts.

(** ** telegram_api.py *)

Section Telegram_facts.
Import Py Telegram.
Variable fails : list action -> action -> option exn.

Lemma T_bind_run {A B} (m : T A) (f : A -> T B) log :
  (m ≫= f) log = match m log with
                  | (Ok a, done') => f a done'
                  | (Raise e, done') => (Raise e, done')
                  end.
Proof. reflexivity. Qed.

Lemma user_id_run update id log :
  effective_user update = Some id -> user_id update log = (Ok id, log).
Proof. unfold user_id. by intros ->. Qed.

(** The admin check: for an admin the wrapped handler runs and its value is
    handed on; for anyone else the handler is not run at all, whatever it
    is: the id is printed, the chat is told "Nie jestes adminem." and the
    wrapper returns None (or raises what sending raised). *)
Theorem check_admin_user_gate {A} (func : Update -> T A) update id log :
  effective_user update = Some id ->
  if bool_decide (pretty id ∈ ADMIN_USERS) then
    check_admin_user fails func update log
    = (let (r, done') := func update log in
       (match r with Ok a => Ok (Some a) | Raise e => Raise e end, done'))
  else
    (∀ other : Update -> T A,
       check_admin_user fails func update log = check_admin_user fails other update log) ∧
    match effective_chat update with
    | Some chat =>
        check_admin_user fails func update log
        = (match fails (log ++ [print (pretty id)]) (send_message chat "Nie jestes adminem.") with
           | None => Ok None
           | Some e => Raise e
           end,
           log ++ [print (pretty id); send_message chat "Nie jestes adminem."])
    | None =>
        check_admin_user fails func update log
        = (Raise (attribute_of_None "id"), log ++ [print (pretty id)])
    end.
Proof.
  intros Huser. case_bool_decide as Hadmin.
  - unfold check_admin_user. rewrite T_bind_run, (user_id_run _ _ _ Huser).
    rewrite bool_decide_eq_true_2 by exact Hadmin. cbn [negb].
    rewrite T_bind_run. by destruct (func update log) as [[a | e] log'].
  - assert (Hdenied : ∀ any : Update -> T A,
              check_admin_user fails any update log
              = (_ ← say (pretty id); chat ← chat_id update;
                 _ ← await fails (send_message chat "Nie jestes adminem."); mret None) log).
    { intros any. unfold check_admin_user. rewrite T_bind_run, (user_id_run _ _ _ Huser).
      rewrite bool_decide_eq_false_2 by exact Hadmin. cbn [negb].
      by rewrite T_bind_run, (user_id_run _ _ _ Huser). }
    split; [intros other; by rewrite !Hdenied |].
    rewrite Hdenied. rewrite T_bind_run. unfold say at 1. rewrite T_bind_run. unfold chat_id.
    destruct (effective_chat update) as [chat |]; [| reflexivity].
    rewrite T_bind_run. unfold await. rewrite <- app_assoc.
    by destruct (fails _ _).
Qed.

(** The allow-list check is switched off: with CHECK_ALLOWED as the file
    sets it, the wrapper hands every update to the handler, whoever sent
    it. Switched on, it does not run the handler for a user whose id is not
    in ALLOWED_USERS. *)
Theorem check_allowed_user_gate {A} (func : Update -> T A) update log :
  check_allowed_user fails CHECK_ALLOWED func update log
  = (let (r, log') := func update log in
     (match r with Ok a => Ok (Some a) | Raise e => Raise e end, log')) ∧
  ∀ id, effective_user update = Some id -> pretty id ∉ ALLOWED_USERS ->
    ∀ other : Update -> T A,
      check_allowed_user fails true func update log
      = check_allowed_user fails true other update log.
Proof.
  split.
  - unfold check_allowed_user, CHECK_ALLOWED. rewrite T_bind_run.
    change ((mret false : T bool) log) with (Ok false : res bool, log).
    cbv beta iota. rewrite T_bind_run.
    by destruct (func update log) as [[a | e] log'].
  - intros id Huser Hout other. unfold check_allowed_user.
    rewrite !T_bind_run, !(user_id_run _ _ _ Huser).
    rewrite bool_decide_eq_false_2 by exact Hout. reflexivity.
Qed.

(** Only an admin sets the bot menu: whatever set_bot_menu does, it calls
    set_my_commands only for an update whose user id is in ADMIN_USERS. *)
Theorem only_admins_set_the_menu update log r log' :
  set_bot_menu fails update log = (r, log') ->
  ∃ new, log' = log ++ new ∧
    (existsb is_set_my_commands new = true ->
     ∃ id, effective_user update = Some id ∧ pretty id ∈ ADMIN_USERS).
Proof.
  unfold set_bot_menu, check_admin_user. rewrite T_bind_run.
  destruct (effective_user update) as [id |] eqn:Huser.
  - rewrite (user_id_run _ _ _ Huser). case_bool_decide as Hadmin; cbn [negb].
    + rewrite T_bind_run. unfold set_bot_menu_body. rewrite T_bind_run. unfold chat_id.
      destruct (effective_chat update) as [chat |];
        [| intros [= <- <-]; exists []; split; [by rewrite app_nil_r | discriminate]].
      rewrite T_bind_run. unfold await at 1.
      destruct (fails log _);
        [intros [= <- <-]; eexists; split; [reflexivity | eauto] |].
      destruct (message update) as [text |].
      * unfold await. destruct (fails _ _); intros [= <- <-];
          rewrite <- app_assoc; eexists; (split; [reflexivity | eauto]).
      * intros [= <- <-]. eexists; split; [reflexivity | eauto].
    + rewrite T_bind_run, (user_id_run _ _ _ Huser).
      rewrite T_bind_run. unfold say at 1. rewrite T_bind_run. unfold chat_id.
      destruct (effective_chat update) as [chat |];
        [| intros [= <- <-]; eexists; split; [reflexivity | discriminate]].
      rewrite T_bind_run. unfold await.
      destruct (fails _ _); intros [= <- <-]; rewrite <- app_assoc;
        eexists; (split; [reflexivity | discriminate]).
  - unfold user_id. rewrite Huser.
    intros [= <- <-]. exists []. split; [by rewrite app_nil_r | discriminate].
Qed.

End Telegram_facts.

(** ** Runs *)

Section More_runs.
Import Py Common Gmail Calendar Spotify Capabilities Text Effects Telegram Fixtures.

Lemma header_value_absent_witness :
  Forall (other_header (signed_in []) "date") [from_header; subject_header] ∧
  header_value (signed_in []) "date" "Unknown date" (PList [from_header; subject_header])
  = Ok (PStr "Unknown date").
Proof.
  assert (H : Forall (other_header (signed_in []) "date") [from_header; subject_header]).
  { repeat constructor; eexists; (split; [reflexivity | by vm_compute]). }
  split; [exact H | by apply header_value_absent].
Defined.

Lemma header_value_first_match_witness :
  header_value (signed_in []) "subject" "No subject"
    (PList ([from_header] ++ subject_header :: [PInt 3]))
  = Ok (PStr "Hi").
Proof.
  apply (header_value_first_match (signed_in []) "subject" "No subject"
           [from_header] subject_header "SUBJECT" [PInt 3]).
  - repeat constructor. eexists. split; [reflexivity | by vm_compute].
  - reflexivity.
  - reflexivity.
Defined.

Lemma message_body_without_plain_text_witness :
  message_body (signed_in [])
    (PDict [("parts", PList [PDict [("mimeType", PStr "text/html");
                                    ("body", PDict [("data", PStr "PGI+aGk8L2I+")])]]);
            ("body", PDict [("data", PStr "aGk=")])])
  = Ok "No content".
Proof.
  eapply message_body_without_plain_text; [reflexivity |].
  repeat constructor. eexists. split; [reflexivity | by vm_compute].
Defined.

Lemma empty_listing_is_a_notice_witness :
  authenticate_gmail (signed_in []) fresh = (Ok (a_client, a_client), signed_in_world) ∧
  fst (read_emails (signed_in []) ∅ true 30 None fresh)
  = Ok "<result><message>No unread emails found.</message></result>".
Proof.
  split; [reflexivity |].
  destruct (empty_listing_is_a_notice (signed_in []) ∅ fresh a_client a_client
              signed_in_world eq_refl) as [Hread _].
  by rewrite (Hread true 30%Z None (PDict [("messages", PList [])]) (PList [])
                eq_refl eq_refl eq_refl).
Defined.

Lemma valid_token_needs_no_prompt_witness :
  let P := signed_in [] in
  truthy (PBool true) = true ∧ getattr P a_client "valid" = Ok (PBool true) ∧
  ∃ rest,
    calls signed_in_world
    = calls fresh ++ [(os_path_exists, [PStr (token_path P)]);
                      (Credentials_from_authorized_user_file, [PStr (token_path P); SCOPES])]
                  ++ rest ∧
    (rest = [(build, [PStr "gmail"; PStr "v1"; a_client])]
     ∨ rest = [(build, [PStr "gmail"; PStr "v1"; a_client]);
               (build, [PStr "calendar"; PStr "v3"; a_client])]).
Proof.
  cbn zeta. split; [reflexivity |]. split; [reflexivity |].
  apply (valid_token_needs_no_prompt (signed_in []) fresh (PBool true) a_client (PBool true)
           (Ok (a_client, a_client)) signed_in_world); reflexivity.
Defined.

Lemma refreshed_token_is_not_saved_witness :
  let P := token_loading (Ok expired_creds) in
  ∃ r w',
    authenticate_gmail P fresh = (r, w') ∧
    ∃ rest,
      calls w' = calls fresh
                 ++ [(os_path_exists, [PStr (token_path P)]);
                     (Credentials_from_authorized_user_file, [PStr (token_path P); SCOPES]);
                     (creds_refresh, [expired_creds])]
                 ++ rest ∧
      (rest = [] ∨ rest = [(build, [PStr "gmail"; PStr "v1"; expired_creds])]
       ∨ rest = [(build, [PStr "gmail"; PStr "v1"; expired_creds]);
                 (build, [PStr "calendar"; PStr "v3"; expired_creds])]).
Proof.
  cbn zeta. eexists _, _. split; [reflexivity |].
  eapply (refreshed_token_is_not_saved (token_loading (Ok expired_creds)) fresh (PBool true)
            expired_creds (PBool false) (PBool true) (PStr "1//0gxyz")); reflexivity.
Defined.


Lemma invalid_time_is_rejected_witness :
  let P := signed_in_with lunch PNone in
  fromisoformat_utc P "tomorrow"
  = Raise (Exn ValueError "Invalid isoformat string: 'tomorrow'") ∧
  list_upcoming_events P ∅ 10 (Some "tomorrow") fresh
  = (Ok (error_payload ("Invalid time format: " +:+ "Invalid isoformat string: 'tomorrow'")),
     signed_in_world).
Proof.
  cbn zeta. split; [reflexivity |].
  apply (invalid_time_is_rejected (signed_in_with lunch PNone) ∅ 10%Z "tomorrow" fresh
           a_client a_client); [reflexivity | discriminate | reflexivity].
Defined.

Lemma update_event_changes_only_what_is_given_witness :
  let P := signed_in_with lunch PNone in
  let run := update_event P ∅ "e1" (Some "Dinner") None None None None None fresh in
  authenticate_gmail P fresh = (Ok (a_client, a_client), signed_in_world) ∧
  respond P (calls signed_in_world) (events_get, [a_client; PStr "primary"; PStr "e1"])
  = Ok lunch ∧
  ∃ body,
    calls (snd run)
    = calls signed_in_world
      ++ [(events_get, [a_client; PStr "primary"; PStr "e1"]);
          (events_update, [a_client; PStr "primary"; PStr "e1"; PDict body])] ∧
    assoc "summary" body = Some (PStr "Dinner") ∧
    assoc "colorId" body = Some (PStr "5").
Proof.
  cbn zeta. split; [reflexivity |]. split; [reflexivity |].
  destruct (update_event_changes_only_what_is_given (signed_in_with lunch PNone) ∅ "e1"
              (Some "Dinner") None None None None None fresh a_client a_client
              signed_in_world _ _ _ eq_refl eq_refl (surjective_pairing _))
    as [[_ Hcalls] | (body & Hcalls & Hother & Hsummary & _)].
  - by vm_compute in Hcalls.
  - exists body. split; [exact Hcalls |]. split; [exact Hsummary |].
    rewrite Hother; [reflexivity |].
    unfold update_fields. intros Hin.
    repeat (apply elem_of_cons in Hin as [Hin | Hin]; [discriminate Hin |]).
    by apply elem_of_nil in Hin.
Defined.

Lemma update_event_without_start_witness :
  let P := signed_in_with (PDict [("id", PStr "e2"); ("summary", PStr "Birthday")]) PNone in
  authenticate_gmail P fresh = (Ok (a_client, a_client), signed_in_world) ∧
  update_event P ∅ "e2" None (Some "2024-05-01T12:00:00") None None None None fresh
  = (Ok (error_payload "Error updating event: 'start'"),
     mkWorld (calls signed_in_world ++ [(events_get, [a_client; PStr "primary"; PStr "e2"])])
             None).
Proof.
  cbn zeta. split; [reflexivity |].
  apply (update_event_without_start _ ∅ "e2" None (Some "2024-05-01T12:00:00")
           None None None None fresh a_client a_client signed_in_world
           [("id", PStr "e2"); ("summary", PStr "Birthday")]); reflexivity.
Defined.

Lemma spotify_client_is_cached_witness :
  get_spotify_client (signed_in []) fresh = (Ok a_client, spotify_world) ∧
  spotify_client_cache spotify_world = Some a_client ∧
  get_spotify_client (signed_in []) spotify_world = (Ok a_client, spotify_world).
Proof.
  split; [reflexivity |].
  exact (spotify_client_is_cached (signed_in []) fresh (Ok a_client) spotify_world eq_refl).
Defined.

Lemma play_without_match_witness :
  let P := signed_in_with PNone (PDict [("tracks", PDict [("items", PList [])])]) in
  get_spotify_client P fresh = (Ok a_client, spotify_world) ∧
  play P ∅ "Imagine" "track" fresh
  = (Ok (error_payload ("No " +:+ "track" +:+ " found matching: '" +:+ "Imagine" +:+ "'")),
     mkWorld (calls spotify_world
              ++ [(sp_search, [a_client; PStr "Imagine"; PStr "track"; PInt 1])])
             (Some a_client)).
Proof.
  cbn zeta. split; [reflexivity |].
  eapply (play_without_match _ ∅ "Imagine" "track" fresh a_client spotify_world);
    [reflexivity | apply (bool_decide_unpack _); by vm_compute | reflexivity
    | reflexivity | reflexivity].
Defined.

Lemma play_starts_before_it_answers_witness :
  let P := signed_in_with PNone nameless_track in
  get_spotify_client P fresh = (Ok a_client, spotify_world) ∧
  ∃ how,
    play P ∅ "Imagine" "track" fresh
    = (Ok (error_payload ("Error playing " +:+ "track" +:+ ": 'name'")),
       mkWorld (calls spotify_world
                ++ [(sp_search, [a_client; PStr "Imagine"; PStr "track"; PInt 1]);
                    (start_playback, [a_client; how])])
               (Some a_client)).
Proof.
  cbn zeta. split; [reflexivity |].
  eapply (play_starts_before_it_answers _ ∅ "Imagine" "track" fresh a_client spotify_world);
    [reflexivity | apply (bool_decide_unpack _); by vm_compute | reflexivity
    | reflexivity | reflexivity | reflexivity | reflexivity | reflexivity
    | intros args; by eexists].
Defined.

Lemma check_admin_user_gate_witness :
  effective_user from_a_stranger = Some 42%Z ∧
  check_admin_user reliable (fun _ => mret tt : T unit) from_a_stranger []
  = (Ok None, [print "42"; send_message 7 "Nie jestes adminem."]).
Proof.
  split; [reflexivity |].
  exact (proj2 (check_admin_user_gate reliable (fun _ => mret tt : T unit)
                  from_a_stranger 42%Z [] eq_refl)).
Defined.

Lemma only_admins_set_the_menu_witness :
  let run := set_bot_menu reliable from_the_admin [] in
  snd run = [set_my_commands [("caps", "🔠 Caps")]; reply_text "Menu ustawione!"] ∧
  ∃ new, snd run = [] ++ new ∧
    (existsb is_set_my_commands new = true ->
     ∃ id, effective_user from_the_admin = Some id ∧ pretty id ∈ ADMIN_USERS).
Proof.
  cbn zeta. split; [by vm_compute |].
  exact (only_admins_set_the_menu reliable from_the_admin [] _ _ (surjective_pairing _)).
Defined.

End More_runs.
